(** * decryptic: the crossword extraction and conversion pipeline of [main.py]

    A shallow embedding of [src/main.py] and the properties of its
    date-range resolver, text sanitizer, embedded-state extractor, puzzle
    builder and conversion log.

    Python values are modelled as follows.
    - [str]: the sequence of its Unicode code points ([list N]);
      [bytes]: the sequence of its octets ([list N], every element below 256).
    - exceptions: the sum type [result], with one constructor of [exn] per
      exception class the module can raise.
    - [datetime.date]: its proleptic Gregorian ordinal.
    - external libraries (dateutil, html2text, emoji, unidecode, BeautifulSoup,
      json, zoneinfo), the clock and the [open] of the operating system:
      Section variables. *)

From Stdlib Require Import ZArith NArith List Ascii String Bool Lia.
From Stdlib Require Import Permutation Sorted DecimalString.
From stdpp Require Import gmap.
Import ListNotations.

Local Open Scope Z_scope.

(** ** Strings *)

Definition str := list N.
Definition bytes := list N.

(** An ASCII literal as a [str]. *)
Definition lit (s : string) : str :=
  List.map N_of_ascii (list_ascii_of_string s).

Definition str_eqb (a b : str) : bool := bool_decide (a = b).

(** [sep.join(parts)] *)
Fixpoint join (sep : str) (parts : list str) : str :=
  match parts with
  | [] => []
  | [p] => p
  | p :: rest => p ++ sep ++ join sep rest
  end.

(** The code points for which [str.isspace] holds; [str.strip()] removes
    exactly these from both ends. *)
Definition is_space (c : N) : bool :=
  ((9 <=? c) && (c <=? 13) || (28 <=? c) && (c <=? 32)
   || (c =? 133) || (c =? 160) || (c =? 5760)
   || (8192 <=? c) && (c <=? 8202)
   || (c =? 8232) || (c =? 8233) || (c =? 8239) || (c =? 8287)
   || (c =? 12288))%N.

Fixpoint lstrip (s : str) : str :=
  match s with
  | c :: rest => if is_space c then lstrip rest else s
  | [] => []
  end.

Definition rstrip (s : str) : str := rev (lstrip (rev s)).

(** [s.strip()] *)
Definition strip (s : str) : str := rstrip (lstrip s).

(** [str.upper], [str.lower] and [str.capitalize] on strings of ASCII
    characters, where they only touch the letters a-z and A-Z.  The module
    applies [upper] to the three type names and [capitalize] to a value it
    has just asserted equal to such an upper-cased name, so no other
    character reaches them on the paths modelled here. *)
Definition upper_char (c : N) : N :=
  if ((97 <=? c) && (c <=? 122))%N then (c - 32)%N else c.

Definition lower_char (c : N) : N :=
  if ((65 <=? c) && (c <=? 90))%N then (c + 32)%N else c.

Definition upper (s : str) : str := List.map upper_char s.

Definition capitalize (s : str) : str :=
  match s with
  | [] => []
  | c :: rest => upper_char c :: List.map lower_char rest
  end.

Definition is_ascii (s : str) : Prop := Forall (fun c => (c < 128)%N) s.

(** Decimal rendering of a non-negative integer, and [%0wd] padding. *)
Definition decimal (z : Z) : str :=
  lit (NilZero.string_of_uint (N.to_uint (Z.to_N z))).

Definition zfill (w : nat) (s : str) : str :=
  repeat 48%N (w - List.length s)%nat ++ s.

(** ** Exceptions *)

Inductive exn : Type :=
| AssertionError
| RuntimeError (msg : str)
| ValueError (msg : str)
| BadParameter (msg : str) (param_hint : str)
| ParserError
| OverflowError
| HTTPError
| AttributeError
| TypeError
| IndexError
| UnicodeEncodeError
| UnicodeDecodeError
| JSONDecodeError
| OSError.

Inductive result (A : Type) : Type :=
| Ok (a : A)
| Raise (e : exn).

Arguments Ok {A} a.
Arguments Raise {A} e.

Definition bind {A B} (r : result A) (k : A -> result B) : result B :=
  match r with
  | Ok a => k a
  | Raise e => Raise e
  end.

Notation "'do' x <- r ; k" := (bind r (fun x => k))
  (at level 10, x name, r at level 100, k at level 200).

Definition is_Ok {A} (r : result A) : Prop := exists a, r = Ok a.

(** ** Calendar dates

    [datetime.date] compares, subtracts and adds days through the proleptic
    Gregorian ordinal of the date (day 1 is 0001-01-01); a [date] is that
    ordinal.  The conversions below are the ones of CPython's [datetime]
    ([_ymd2ord], [_ord2ymd]). *)

Record date : Type := mkdate { toordinal : Z }.

Definition MAXORDINAL : Z := 3652059.

Definition valid_date (d : date) : Prop :=
  1 <= toordinal d <= MAXORDINAL.

Definition date_le (a b : date) : Prop := toordinal a <= toordinal b.
Definition date_lt (a b : date) : Prop := toordinal a < toordinal b.
Definition date_leb (a b : date) : bool := toordinal a <=? toordinal b.
Definition date_ltb (a b : date) : bool := toordinal a <? toordinal b.

Definition _is_leap (year : Z) : bool :=
  (year mod 4 =? 0) && (negb (year mod 100 =? 0) || (year mod 400 =? 0)).

Definition _days_before_year (year : Z) : Z :=
  let y := year - 1 in y * 365 + y / 4 - y / 100 + y / 400.

Definition _DAYS_IN_MONTH (month : Z) : Z :=
  nth (Z.to_nat month) [-1; 31; 28; 31; 30; 31; 30; 31; 31; 30; 31; 30; 31] 0.

Definition _DAYS_BEFORE_MONTH (month : Z) : Z :=
  nth (Z.to_nat month)
      [-1; 0; 31; 59; 90; 120; 151; 181; 212; 243; 273; 304; 334] 0.

Definition _days_before_month (year month : Z) : Z :=
  _DAYS_BEFORE_MONTH month
  + (if (2 <? month) && _is_leap year then 1 else 0).

Definition _ymd2ord (year month day : Z) : Z :=
  _days_before_year year + _days_before_month year month + day.

Definition _ord2ymd (n0 : Z) : Z * Z * Z :=
  let n := n0 - 1 in
  let n400 := n / 146097 in
  let n := n mod 146097 in
  let year := n400 * 400 + 1 in
  let n100 := n / 36524 in
  let n := n mod 36524 in
  let n4 := n / 1461 in
  let n := n mod 1461 in
  let n1 := n / 365 in
  let n := n mod 365 in
  let year := year + n100 * 100 + n4 * 4 + n1 in
  if (n1 =? 4) || (n100 =? 4) then (year - 1, 12, 31)
  else
    let leapyear := (n1 =? 3) && (negb (n4 =? 24) || (n100 =? 3)) in
    let month := Z.shiftr (n + 50) 5 in
    let preceding :=
      _DAYS_BEFORE_MONTH month + (if (2 <? month) && leapyear then 1 else 0) in
    if n <? preceding then
      let month := month - 1 in
      let preceding :=
        preceding
        - (_DAYS_IN_MONTH month + (if (month =? 2) && leapyear then 1 else 0)) in
      (year, month, n - preceding + 1)
    else (year, month, n - preceding + 1).

(** [date(year, month, day)] *)
Definition date_of_ymd (year month day : Z) : date :=
  mkdate (_ymd2ord year month day).

(** [d.isoformat()]: [YYYY-MM-DD] *)
Definition isoformat (d : date) : str :=
  let '(y, m, dd) := _ord2ymd (toordinal d) in
  zfill 4 (decimal y) ++ lit "-" ++ zfill 2 (decimal m) ++ lit "-"
    ++ zfill 2 (decimal dd).

Definition weekday (d : date) : Z := (toordinal d + 6) mod 7.

Definition day_name (w : Z) : str :=
  nth (Z.to_nat w)
      (List.map lit ["Monday"; "Tuesday"; "Wednesday"; "Thursday"; "Friday";
                     "Saturday"; "Sunday"]%string) [].

Definition month_name (m : Z) : str :=
  nth (Z.to_nat m)
      (List.map lit [""; "January"; "February"; "March"; "April"; "May"; "June";
                     "July"; "August"; "September"; "October"; "November";
                     "December"]%string) [].

(** [d.strftime("%A, %B %d, %Y")] in the C locale. *)
Definition strftime_readable (d : date) : str :=
  let '(y, m, dd) := _ord2ymd (toordinal d) in
  day_name (weekday d) ++ lit ", " ++ month_name m ++ lit " "
    ++ zfill 2 (decimal dd) ++ lit ", " ++ decimal y.

(** [a - b] as a number of days, and [d + timedelta(days=k)], which raises
    [OverflowError] outside [date.min .. date.max]. *)
Definition date_sub_days (a b : date) : Z := toordinal a - toordinal b.

Definition date_add_days (d : date) (k : Z) : result date :=
  let o := toordinal d + k in
  if (1 <=? o) && (o <=? MAXORDINAL) then Ok (mkdate o) else Raise OverflowError.

(** ** Text sanitizer ([_sanitize_for_latin1], lines 68-81)

    [conversion_log] is the module-level list; every function that touches
    it takes the current list and returns the new one. *)

Definition ConversionRecord : Type := str * str * str.
(* (original, sanitized, context) *)

Section Sanitizer.

(** [html2text(text, bodywidth=0)], [emoji.demojize] and [unidecode]. *)
Variables (html2text demojize unidecode : str -> str).

Definition sanitized_text (text : str) : str :=
  strip (unidecode (demojize (html2text text))).

Definition _sanitize_for_latin1 (text : option str) (context : str)
    (conversion_log : list ConversionRecord)
  : option str * list ConversionRecord :=
  match text with
  | None => (None, conversion_log)
  | Some [] => (Some [], conversion_log)
  | Some t =>
      let sanitized := sanitized_text t in
      if bool_decide (sanitized <> t)
      then (Some sanitized, conversion_log ++ [(t, sanitized, context)])
      else (Some sanitized, conversion_log)
  end.

(** The value [_sanitize_for_latin1] returns for a string; it does not
    depend on the log. *)
Definition sanitized_value (text : str) : option str :=
  match text with
  | [] => Some []
  | _ => Some (sanitized_text text)
  end.

(** The list comprehension of lines 154-157: one call per clue, in order. *)
Fixpoint sanitize_each (texts : list str) (context : str)
    (conversion_log : list ConversionRecord)
  : list (option str) * list ConversionRecord :=
  match texts with
  | [] => ([], conversion_log)
  | t :: rest =>
      let '(v, log1) := _sanitize_for_latin1 (Some t) context conversion_log in
      let '(vs, log2) := sanitize_each rest context log1 in
      (v :: vs, log2)
  end.

End Sanitizer.

(** ** Embedded state: reversing the escaping (line 113)

    [json_string.encode("utf-8").decode("unicode_escape")]. *)

Definition utf8_encode_char (c : N) : result bytes :=
  (if c <? 128 then Ok [c]
   else if c <? 2048 then Ok [192 + c / 64; 128 + c mod 64]
   else if (55296 <=? c) && (c <=? 57343) then Raise UnicodeEncodeError
   else if c <? 65536 then
     Ok [224 + c / 4096; 128 + (c / 64) mod 64; 128 + c mod 64]
   else
     Ok [240 + c / 262144; 128 + (c / 4096) mod 64; 128 + (c / 64) mod 64;
         128 + c mod 64])%N.

Fixpoint utf8_encode (s : str) : result bytes :=
  match s with
  | [] => Ok []
  | c :: rest =>
      do b <- utf8_encode_char c;
      do bs <- utf8_encode rest;
      Ok (b ++ bs)
  end.

Definition hex_value (b : N) : option N :=
  (if (48 <=? b) && (b <=? 57) then Some (b - 48)
   else if (97 <=? b) && (b <=? 102) then Some (b - 87)
   else if (65 <=? b) && (b <=? 70) then Some (b - 55)
   else None)%N.

(** The [hexescape] loop: exactly [count] hexadecimal digits. *)
Fixpoint read_hex (count : nat) (acc : N) (s : bytes) : option (N * bytes) :=
  match count with
  | O => Some (acc, s)
  | S k =>
      match s with
      | b :: rest =>
          match hex_value b with
          | Some v => read_hex k (acc * 16 + v)%N rest
          | None => None
          end
      | [] => None
      end
  end.

Definition is_octal (b : N) : bool := ((48 <=? b) && (b <=? 55))%N.

(** An octal escape: the digit already read and up to two more. *)
Definition read_octal (first : N) (s : bytes) : N * bytes :=
  let d0 := (first - 48)%N in
  match s with
  | b1 :: r1 =>
      if is_octal b1 then
        let d1 := (d0 * 8 + (b1 - 48))%N in
        match r1 with
        | b2 :: r2 =>
            if is_octal b2 then ((d1 * 8 + (b2 - 48))%N, r2) else (d1, r1)
        | [] => (d1, r1)
        end
      else (d0, s)
  | [] => (d0, s)
  end.

(** A [\N{name}] escape: the bytes between the braces and the rest. *)
Fixpoint read_name (s : bytes) : option (bytes * bytes) :=
  match s with
  | [] => None
  | b :: rest =>
      if (b =? 125)%N then Some ([], rest)
      else match read_name rest with
           | Some (name, rest') => Some (b :: name, rest')
           | None => None
           end
  end.

(** The characters just decoded, in front of what the rest decodes to. *)
Definition prepend (chars : str) (rest : option (result str))
  : option (result str) :=
  match rest with
  | Some (Ok out) => Some (Ok (chars ++ out))
  | other => other
  end.

Section UnicodeEscape.

(** The Unicode character database behind [\N{name}]. *)
Variable ucd_lookup : bytes -> option N.

(** One turn of the decoder's loop over at most [fuel] turns; [None] when
    the turns are used up before the input is.  Every turn consumes at
    least one byte, so [length s] turns are enough
    ([decode_loop_enough_fuel]). *)
Fixpoint decode_loop (fuel : nat) (s : bytes) : option (result str) :=
  match s with
  | [] => Some (Ok [])
  | c :: s1 =>
      match fuel with
      | O => None
      | S fuel' =>
          let emit (chars : str) (rest : bytes) :=
            prepend chars (decode_loop fuel' rest) in
          if negb (c =? 92)%N then emit [c] s1
          else
            match s1 with
            | [] => Some (Raise UnicodeDecodeError) (* \ at end of string *)
            | e :: s2 =>
                if (e =? 10)%N then emit [] s2
                else if (e =? 92)%N then emit [92%N] s2
                else if (e =? 39)%N then emit [39%N] s2
                else if (e =? 34)%N then emit [34%N] s2
                else if (e =? 98)%N then emit [8%N] s2
                else if (e =? 102)%N then emit [12%N] s2
                else if (e =? 116)%N then emit [9%N] s2
                else if (e =? 110)%N then emit [10%N] s2
                else if (e =? 114)%N then emit [13%N] s2
                else if (e =? 118)%N then emit [11%N] s2
                else if (e =? 97)%N then emit [7%N] s2
                else if is_octal e then
                  let '(ch, rest) := read_octal e s2 in emit [ch] rest
                else if (e =? 120)%N || (e =? 117)%N || (e =? 85)%N then
                  let count :=
                    if (e =? 120)%N then 2%nat
                    else if (e =? 117)%N then 4%nat else 8%nat in
                  match read_hex count 0 s2 with
                  | Some (ch, rest) =>
                      if (1114111 <? ch)%N then Some (Raise UnicodeDecodeError)
                      else emit [ch] rest
                  | None => Some (Raise UnicodeDecodeError)
                  end
                else if (e =? 78)%N then
                  match s2 with
                  | b :: s3 =>
                      if (b =? 123)%N then
                        match read_name s3 with
                        | Some (n :: name, rest) =>
                            match ucd_lookup (n :: name) with
                            | Some ch => emit [ch] rest
                            | None => Some (Raise UnicodeDecodeError)
                            end
                        | _ => Some (Raise UnicodeDecodeError)
                        end
                      else Some (Raise UnicodeDecodeError)
                  | [] => Some (Raise UnicodeDecodeError)
                  end
                else emit [92%N; e] s2
            end
      end
  end.

(** [bytes.decode("unicode_escape")] *)
Definition decode_unicode_escape (s : bytes) : result str :=
  match decode_loop (List.length s) s with
  | Some r => r
  | None => Raise UnicodeDecodeError
  end.

(** Line 113. *)
Definition unescape (json_string : str) : result str :=
  do b <- utf8_encode json_string;
  decode_unicode_escape b.

End UnicodeEscape.

(** The escaping that the page applies to the JSON document, as the
    interface describes it (standard JS string escaping): a double quote
    and a backslash are each preceded by a backslash, the characters selected
    by [escaped] become [\uXXXX] (two such escapes, a surrogate pair, above
    the basic plane),
    and every other character stays as it is. *)

Definition hex_digit (v : N) : N :=
  (if v <? 10 then 48 + v else 87 + v)%N.

Definition hex4 (c : N) : str :=
  [hex_digit (c / 4096 mod 16); hex_digit (c / 256 mod 16);
   hex_digit (c / 16 mod 16); hex_digit (c mod 16)]%N.

Definition u_escape (c : N) : str :=
  (if c <? 65536 then [92; 117] ++ hex4 c
   else
     let v := c - 65536 in
     [92; 117] ++ hex4 (55296 + v / 1024) ++ [92; 117] ++ hex4 (56320 + v mod 1024))%N.

Definition js_escape_char (escaped : N -> bool) (c : N) : str :=
  (if c =? 34 then [92; 34]
   else if c =? 92 then [92; 92]
   else if escaped c then u_escape c
   else [c])%N.

Definition js_escape (escaped : N -> bool) (J : str) : str :=
  List.concat (List.map (js_escape_char escaped) J).

(** Characters that this escaping brings back intact through line 113:
    those of the basic plane that are ASCII or written as an escape. *)
Definition survives (escaped : N -> bool) (c : N) : Prop :=
  (c < 65536)%N /\ (escaped c = false -> (c < 128)%N).

(** ** Locating the embedded state (lines 106-111)

    [re.search(r'window\.INITIAL_STATE = JSON\.parse\((.+)\);', text)] with
    the group between double quotes: the leftmost occurrence of the fixed
    prefix from which the rest of the pattern can match; the group is greedy
    and [.] does not match a newline. *)

Fixpoint starts_with (pat s : str) : bool :=
  match pat, s with
  | [], _ => true
  | p :: pat', c :: s' => (p =? c)%N && starts_with pat' s'
  | _ :: _, [] => false
  end.

Definition state_prefix : str := lit "window.INITIAL_STATE = JSON.parse(" ++ [34%N].
Definition state_suffix : str := [34%N] ++ lit ");".

Fixpoint until_newline (s : str) : str :=
  match s with
  | [] => []
  | c :: rest => if (c =? 10)%N then [] else c :: until_newline rest
  end.

(** The longest non-empty prefix of [line] that is followed by the suffix. *)
Fixpoint greedy_group (line : str) : option str :=
  match line with
  | [] => None
  | c :: rest =>
      match greedy_group rest with
      | Some g => Some (c :: g)
      | None => if starts_with state_suffix rest then Some [c] else None
      end
  end.

Fixpoint re_search_group (text : str) : option str :=
  match text with
  | [] => None
  | _ :: rest =>
      let here :=
        if starts_with state_prefix text
        then greedy_group (until_newline (skipn (List.length state_prefix) text))
        else None in
      match here with
      | Some g => Some g
      | None => re_search_group rest
      end
  end.

(** ** The crossword record and the puzzle *)

Inductive CrosswordType : Type := CRYPTIC | MINI | QUICK.

Definition value (t : CrosswordType) : str :=
  match t with
  | CRYPTIC => lit "cryptic"
  | MINI => lit "mini"
  | QUICK => lit "quick"
  end.

Record ClueRecord : Type := mkClue { position : Z; question : str }.

(** The value stored in [crossword_data], read at the types of the data
    model: every required key is present and holds a value of its type.
    Grid cells are strings, as JSON has no character type. *)
Record RawCrosswordRecord : Type := mkRecord {
  r_date : str;
  r_type : str;
  r_author : str;
  grid : list (list str);
  across : list ClueRecord;
  down : list ClueRecord;
  specialInstructions : option str;
  summary : option str
}.

Record Puzzle : Type := mkPuzzle {
  copyright : str;
  title : str;
  author : str;
  width : nat;
  height : nat;
  solution : str;
  fill : str;
  clues : list (option str);
  notes : option str
}.

Record Response : Type := mkResponse { status_ok : bool; content : bytes }.

(** A [Crossword] object.  [response] and [crossword_data] are [None] while
    the attribute does not exist (the class has [__slots__]);
    [crossword_data = Some None] is the attribute holding Python's [None]. *)
Record Crossword : Type := mkCrossword {
  crossword_type : CrosswordType;
  cw_date : date;
  response : option Response;
  crossword_data : option (option RawCrosswordRecord)
}.

(** [Crossword.__init__], given the response the session returns. *)
Definition Crossword_init (t : CrosswordType) (d : date) (resp : Response)
  : Crossword :=
  mkCrossword t d (Some resp) None.

(** [sorted(clue_list, key=lambda x: x[position])].  [sorted] is stable, and
    the stable ascending arrangement of a list is unique, so the insertion
    sort below returns the list CPython returns. *)
Fixpoint insert_by_key {A} (key : A -> Z) (x : A) (l : list A) : list A :=
  match l with
  | [] => [x]
  | y :: rest =>
      if key y <? key x then y :: insert_by_key key x rest else x :: l
  end.

Fixpoint sorted {A} (key : A -> Z) (l : list A) : list A :=
  match l with
  | [] => []
  | x :: rest => insert_by_key key x (sorted key rest)
  end.

(** [a] occurs in [l] at an earlier index than [d]. *)
Definition precedes {A} (a d : A) (l : list A) : Prop :=
  exists l1 l2 l3, l = l1 ++ a :: l2 ++ d :: l3.

Definition ascending {A} (key : A -> Z) : list A -> Prop :=
  StronglySorted (fun a b => key a <= key b).

Definition no_data_message : str :=
  lit "No crossword data available. Call extract_crossword() first.".

Definition not_found_message : str :=
  lit "Crossword data not found in the page.".

Definition empty_message : str := lit "Response content is empty.".

Section Pipeline.

Variables (html2text demojize unidecode : str -> str).

(** [BeautifulSoup(content, "html.parser").find_all("script")]: the
    [.string] of every script element, in document order. *)
Variable script_strings : bytes -> list (option str).

(** [json.loads(json_string).get("crosswords", {}).get("crossword")]
    (lines 115-117), its value read as a record: [Ok None] when the path
    is absent, an exception when the text is not JSON. *)
Variable loads_crossword : str -> result (option RawCrosswordRecord).

Variable ucd_lookup : bytes -> option N.

(** The loop of lines 104-120: the first script whose text matches
    decides; an exception while decoding it leaves the loop. *)
Fixpoint scan_scripts (scripts : list (option str))
  : result (option RawCrosswordRecord) :=
  match scripts with
  | [] => Raise (RuntimeError not_found_message)
  | script :: rest =>
      match script with
      | Some (c :: text) =>
          match re_search_group (c :: text) with
          | Some json_string =>
              do json_string <- unescape ucd_lookup json_string;
              loads_crossword json_string
          | None => scan_scripts rest
          end
      | _ => scan_scripts rest
      end
  end.

(** [extract_crossword]: the outcome and the object afterwards. *)
Definition extract_crossword (self : Crossword) : result unit * Crossword :=
  match response self with
  | None => (Raise AttributeError, self)
  | Some resp =>
      if negb (status_ok resp) then (Raise HTTPError, self)
      else
        match content resp with
        | [] => (Raise (ValueError empty_message), self)
        | _ :: _ =>
            match scan_scripts (script_strings (content resp)) with
            | Ok data =>
                (Ok tt,
                 mkCrossword (crossword_type self) (cw_date self) None
                             (Some data))
            | Raise e => (Raise e, self)
            end
        end
  end.

(** [to_puzzle]: the outcome and the conversion log afterwards.  The
    [assert] statements are executed, as the interpreter does by default.
    The record is read at its types: what the function does with a record
    that lacks a key or holds a value of another type (KeyError, TypeError
    in lines 133-165) is outside this model. *)
Definition to_puzzle (self : Crossword)
    (conversion_log : list ConversionRecord)
  : result Puzzle * list ConversionRecord :=
  match crossword_data self with
  | None => (Raise (RuntimeError no_data_message), conversion_log)
  | Some None => (Raise TypeError, conversion_log)
  | Some (Some data) =>
      if negb (str_eqb (r_date data) (isoformat (cw_date self)))
      then (Raise AssertionError, conversion_log)
      else
        let readable_date := strftime_readable (cw_date self) in
        if negb (str_eqb (upper (value (crossword_type self))) (r_type data))
        then (Raise AssertionError, conversion_log)
        else
          let title := capitalize (r_type data) ++ lit ", " ++ readable_date in
          let author := lit "Created by " ++ r_author data in
          let grid_data := grid data in
          match grid_data with
          | [] => (Raise IndexError, conversion_log)
          | row0 :: _ =>
              let width := List.length row0 in
              let height := List.length grid_data in
              let solution := List.concat (List.map (@List.concat N) (grid data)) in
              let fill :=
                List.map (fun c => if (c =? 46)%N then c else 45%N) solution in
              let clue_list := across data ++ down data in
              let sorted_clues := sorted position clue_list in
              let '(clues, log1) :=
                sanitize_each html2text demojize unidecode
                  (List.map question sorted_clues) (lit "clue " ++ title)
                  conversion_log in
              let notes :=
                List.filter (fun s => negb (str_eqb s []))
                  [default [] (specialInstructions data);
                   default [] (summary data)] in
              let joined := join [10%N] notes in
              let '(notes, log2) :=
                _sanitize_for_latin1 html2text demojize unidecode
                  (match joined with [] => None | _ => Some joined end)
                  (lit "notes " ++ title) log1 in
              (Ok (mkPuzzle (lit "The Sydney Morning Herald") title author
                     width height solution fill clues notes),
               log2)
          end
  end.

End Pipeline.

(** ** Date tokens ([_parse_single_date], [_resolve_dates]) *)

(** What the resolver reads from a parsed [datetime]: its calendar date and,
    when it is timezone-aware, its UTC offset in seconds. *)
Record datetime : Type := mkdatetime {
  dt_date : date;
  dt_seconds : Z;
  tzinfo : option Z
}.

(** [date_token.split(":", 1)] when the token contains a colon. *)
Fixpoint split_colon (s : str) : option (str * str) :=
  match s with
  | [] => None
  | c :: rest =>
      if (c =? 58)%N then Some ([], rest)
      else match split_colon rest with
           | Some (a, b) => Some (c :: a, b)
           | None => None
           end
  end.

(** [range(span)] *)
Definition range (span : Z) : list Z :=
  List.map Z.of_nat (seq 0 (Z.to_nat span)).

Fixpoint collect {A B} (f : A -> result B) (l : list A) : result (list B) :=
  match l with
  | [] => Ok []
  | x :: rest =>
      do y <- f x;
      do ys <- collect f rest;
      Ok (y :: ys)
  end.

Definition range_message : str :=
  lit "Date range must include both start and end values.".

Definition order_message : str :=
  lit "End date must be on or after start date.".

(** The consecutive calendar dates [start], [start] + 1 day, ...: [n] of
    them. *)
Fixpoint days_from (start : date) (n : nat) : list date :=
  match n with
  | O => []
  | S k => start :: days_from (mkdate (toordinal start + 1)) k
  end.

(** An outcome that is the list of the days from [A] to [B]. *)
Definition lists_the_days (A B : date) (outcome : result (list date)) : Prop :=
  exists dates,
    outcome = Ok dates
    /\ dates = days_from A (Z.to_nat (date_sub_days B A + 1))
    /\ Z.of_nat (List.length dates) = date_sub_days B A + 1
    /\ (forall k, (k < List.length dates)%nat ->
          nth_error dates k = Some (mkdate (toordinal A + Z.of_nat k)))
    /\ hd_error dates = Some A
    /\ last dates = Some B.

Section Resolver.

(** [dateutil.parser.parse(raw, dayfirst=day_first, yearfirst=False)] *)
Variable parse : str -> bool -> result datetime.

(** [parsed.astimezone(SYDNEY_TZ)] *)
Variable astimezone_SYDNEY : datetime -> datetime.

(** [datetime.now(SYDNEY_TZ).date()] *)
Variable today : date.

Definition _parse_single_date (raw : str) (day_first : bool) : result date :=
  do parsed <- parse raw day_first;
  let parsed :=
    match tzinfo parsed with
    | Some _ => astimezone_SYDNEY parsed
    | None => parsed
    end in
  Ok (dt_date parsed).

(** The [try] block of lines 193-196. *)
Definition day_first_attempt (start_raw end_raw : str) : result (date * date) :=
  do start_date <- _parse_single_date start_raw true;
  do end_date <- _parse_single_date end_raw true;
  if date_leb start_date end_date then Ok (start_date, end_date)
  else Raise AssertionError.

(** The handler of lines 197-203. *)
Definition month_first_attempt (start_raw end_raw : str)
  : result (date * date) :=
  do start_date <- _parse_single_date start_raw false;
  do end_date <- _parse_single_date end_raw false;
  if date_ltb end_date start_date
  then Raise (BadParameter order_message (lit "--date"))
  else Ok (start_date, end_date).

Definition _resolve_dates (date_token : option str) : result (list date) :=
  match date_token with
  | None | Some [] => Ok [today]
  | Some token =>
      match split_colon token with
      | Some (a, b) =>
          let start_raw := strip a in
          let end_raw := strip b in
          match start_raw, end_raw with
          | [], _ | _, [] => Raise (BadParameter range_message (lit "--date"))
          | _, _ =>
              do ends <-
                match day_first_attempt start_raw end_raw with
                | Raise AssertionError => month_first_attempt start_raw end_raw
                | other => other
                end;
              let '(start_date, end_date) := ends in
              let span := date_sub_days end_date start_date + 1 in
              collect (fun offset => date_add_days start_date offset)
                      (range span)
          end
      | None =>
          do d <- _parse_single_date token true;
          Ok [d]
      end
  end.

End Resolver.

(** ** Conversion log file ([_write_conversion_log]) *)

(** A path as the list of its components. *)
Definition Path : Type := list str.

Definition path_str (p : Path) : str := join (lit "/") p.

(** What the function can change: the module-level [conversion_log], the
    text of the regular files there are, and what [typer.echo] printed. *)
Record World : Type := mkWorld {
  conversion_log : list ConversionRecord;
  files : gmap Path str;
  echoed : list str
}.

Section ConversionLog.

(** [repr] on strings, and [datetime.now().isoformat()]. *)
Variable repr : str -> str.
Variable timestamp : str.

(** [open(log_file, "a", encoding="utf-8")]: whether the operating system
    opens the file for appending, given the files there are.  It raises an
    [OSError] (FileNotFoundError, NotADirectoryError, IsADirectoryError,
    PermissionError) when the directory above the file is missing or is not
    a directory, or when the file may not be written. *)
Variable open_append : Path -> gmap Path str -> result unit.

Definition log_header : str :=
  [10%N] ++ lit "=== Conversion Log [" ++ timestamp ++ lit "] ===" ++ [10%N].

Definition log_line (rec : ConversionRecord) : str :=
  let '(original, sanitized, context) := rec in
  lit "  [" ++ context ++ lit "] " ++ repr original ++ [32%N; 8594%N; 32%N]
    ++ repr sanitized ++ [10%N].

(** Opening in append mode creates the file when it does not exist; each
    [f.write] adds its text at the end. *)
Definition append_file (p : Path) (text : str) (fs : gmap Path str)
  : gmap Path str :=
  <[p := default [] (fs !! p) ++ text]> fs.

(** [_write_conversion_log]: the outcome and the state afterwards.  An
    exception of [open] leaves the function before anything is written:
    [conversion_log] is not cleared and nothing is echoed.  A write to the
    file that has been opened adds its text (failures of the device while
    writing are not modelled). *)
Definition _write_conversion_log (output_path : Path) (w : World)
  : result unit * World :=
  match conversion_log w with
  | [] => (Ok tt, w)
  | _ :: _ =>
      let log_file := output_path ++ [lit "encoding-conversions.log"] in
      match open_append log_file (files w) with
      | Raise e => (Raise e, w)
      | Ok _ =>
          let fs := append_file log_file log_header (files w) in
          let fs :=
            fold_left (fun fs rec => append_file log_file (log_line rec) fs)
                      (conversion_log w) fs in
          (Ok tt,
           mkWorld [] fs
             (echoed w
                ++ [lit "Conversions logged to: " ++ path_str log_file]))
      end
  end.

End ConversionLog.

(** ** Sample collaborators

    Concrete stand-ins for the external libraries, used to instantiate the
    general statements below at explicit inputs. *)

(** Plain text through html2text: the paragraph followed by a blank line. *)
Definition html2text_plain (text : str) : str := text ++ [10%N; 10%N].

Definition leave_as_is (text : str) : str := text.

Fixpoint split_on (sep : N) (s : str) : list str :=
  match s with
  | [] => [[]]
  | c :: rest =>
      if (c =? sep)%N then [] :: split_on sep rest
      else match split_on sep rest with
           | p :: ps => (c :: p) :: ps
           | [] => [[c]]
           end
  end.

Fixpoint digits_value (acc : Z) (s : str) : option Z :=
  match s with
  | [] => Some acc
  | c :: rest =>
      if ((48 <=? c) && (c <=? 57))%N
      then digits_value (acc * 10 + (Z.of_N c - 48)) rest
      else None
  end.

Definition number (s : str) : option Z :=
  match s with
  | [] => None
  | _ => digits_value 0 s
  end.

Definition _days_in_month (year month : Z) : Z :=
  if (month =? 2) && _is_leap year then 29 else _DAYS_IN_MONTH month.

(** A strict reader of numeric dates: [D/M/Y] when [day_first], [M/D/Y]
    otherwise, naive (no timezone), failing on anything else. *)
Definition numeric_parse (raw : str) (day_first : bool) : result datetime :=
  match List.map number (split_on 47 raw) with
  | [Some a; Some b; Some y] =>
      let '(d, m) := if day_first then (a, b) else (b, a) in
      if (1 <=? y) && (y <=? 9999) && (1 <=? m) && (m <=? 12)
         && (1 <=? d) && (d <=? _days_in_month y m)
      then Ok (mkdatetime (date_of_ymd y m d) 0 None)
      else Raise ParserError
  | _ => Raise ParserError
  end.

(** A reader of numeric dates that tells the day from the month as dateutil
    does for three numbers with the year last: the first number is the day
    when it is above 12, or when [day_first] is set and the second number
    can be a month; otherwise the first number is the month. *)
Definition flexible_parse (raw : str) (day_first : bool) : result datetime :=
  match List.map number (split_on 47 raw) with
  | [Some a; Some b; Some y] =>
      let '(d, m) :=
        if (12 <? a) || (day_first && (b <=? 12)) then (a, b) else (b, a) in
      if (1 <=? y) && (y <=? 9999) && (1 <=? m) && (m <=? 12)
         && (1 <=? d) && (d <=? _days_in_month y m)
      then Ok (mkdatetime (date_of_ymd y m d) 0 None)
      else Raise ParserError
  | _ => Raise ParserError
  end.

(** Conversion to a zone ten hours east of UTC. *)
Definition ten_hours_east (p : datetime) : datetime :=
  match tzinfo p with
  | None => p
  | Some offset =>
      let seconds := dt_seconds p - offset + 36000 in
      mkdatetime (mkdate (toordinal (dt_date p) + seconds / 86400))
                 (seconds mod 86400) (Some 36000)
  end.

Definition new_year_2024 : date := date_of_ymd 2024 1 1.

(** A [repr] that puts the text between single quotes. *)
Definition quoted (s : str) : str := [39%N] ++ s ++ [39%N].

Definition sample_world : World :=
  mkWorld [(lit " a", lit "a", lit "clue Cryptic, Wednesday, April 03, 2024")]
          ∅ [].

(** No element of [ucd_lookup] is needed on the inputs used below. *)
Definition no_names (name : bytes) : option N := None.

(** Text without HTML markup: no tag can open and no entity can start. *)
Definition no_markup (text : str) : Prop :=
  ~ In 60%N text /\ ~ In 38%N text.

Definition all_space (s : str) : Prop := Forall (fun c => is_space c = true) s.

(** Whitespace of ASCII characters only, such as the newlines that html2text
    puts after a paragraph. *)
Definition ascii_space (s : str) : Prop := all_space s /\ is_ascii s.

(** Markup-free text through html2text, with its treatment of blanks: a run
    of whitespace becomes one space, none is kept at the start, and the
    paragraph ends with a newline. *)
Fixpoint collapse_blanks (after_blank : bool) (text : str) : str :=
  match text with
  | [] => []
  | c :: rest =>
      if is_space c
      then if after_blank then collapse_blanks true rest
           else 32%N :: collapse_blanks true rest
      else c :: collapse_blanks false rest
  end.

Definition html2text_blanks (text : str) : str :=
  collapse_blanks true text ++ [10%N].

(** An operating system with the given directories: a file is opened for
    appending when the path above it is one of them.  Below a regular file
    (NotADirectoryError) and below nothing (FileNotFoundError) [open]
    raises. *)
Definition open_below (directories : list Path) (p : Path)
    (fs : gmap Path str) : result unit :=
  match fs !! removelast p with
  | Some _ => Raise OSError
  | None =>
      if bool_decide (removelast p ∈ directories) then Ok tt
      else Raise OSError
  end.

(** The state at the end of a run that saved one puzzle to the file named
    on the command line and logged one conversion. *)
Definition single_file_world : World :=
  mkWorld [(lit " a", lit "a", lit "clue Cryptic, Wednesday, April 03, 2024")]
          {[ [lit "out"; lit "today.puz"] := lit "ACROSS&DOWN" ]} [].

(** A page whose only script element holds the whole body. *)
Definition whole_body_script (content : bytes) : list (option str) :=
  [Some content].

Definition sample_record (type_name : str) (rows : list (list str))
  : RawCrosswordRecord :=
  mkRecord (lit "2024-04-03") type_name (lit "DA") rows
           [mkClue 1 (lit "Cold (3)"); mkClue 4 (lit "Old (3)")]
           [mkClue 1 (lit "Cot (3)"); mkClue 2 (lit "Ode (3)")]
           None None.

Definition sample_grid : list (list str) :=
  List.map (List.map lit)
    [["C"; "O"; "D"]; ["O"; "."; "O"]; ["T"; "E"; "N"]]%string.

Definition ragged_grid : list (list str) :=
  List.map (List.map lit) [["A"; "B"]; ["C"]]%string.

Definition sample_page : bytes :=
  state_prefix ++ lit "{}" ++ state_suffix.

(** [n] successive calls of [extract_crossword] on one object, each outcome
    recorded (the caller catches the exceptions, lines 306-310). *)
Fixpoint extract_repeatedly
    (script_strings : bytes -> list (option str))
    (loads_crossword : str -> result (option RawCrosswordRecord))
    (ucd_lookup : bytes -> option N)
    (n : nat) (self : Crossword) : list (result unit) * Crossword :=
  match n with
  | O => ([], self)
  | S k =>
      let '(outcome, self1) :=
        extract_crossword script_strings loads_crossword ucd_lookup self in
      let '(outcomes, self2) :=
        extract_repeatedly script_strings loads_crossword ucd_lookup k self1 in
      (outcome :: outcomes, self2)
  end.

(** The row-length invariant of the data model. *)
Definition rows_equal_length (g : list (list str)) : Prop :=
  exists w, Forall (fun row => List.length row = w) g.

Definition single_characters (g : list (list str)) : Prop :=
  Forall (Forall (fun cell : str => List.length cell = 1%nat)) g.

(** Objects that already hold a record, as after a successful extraction. *)
Definition extracted (t : CrosswordType) (d : date) (data : RawCrosswordRecord)
  : Crossword :=
  mkCrossword t d None (Some (Some data)).

Definition sample_crossword : Crossword :=
  extracted CRYPTIC (date_of_ymd 2024 4 3)
            (sample_record (lit "CRYPTIC") sample_grid).

Definition sample_puzzle : Puzzle :=
  mkPuzzle (lit "The Sydney Morning Herald")
           (lit "Cryptic, Wednesday, April 03, 2024") (lit "Created by DA")
           3 3 (lit "CODO.OTEN") (lit "----.----")
           (List.map (fun s => Some (lit s))
                     ["Cold (3)"; "Cot (3)"; "Ode (3)"; "Old (3)"]%string)
           None.

Definition sample_response : Response := mkResponse true sample_page.

Definition mixed_case_crossword : Crossword :=
  extracted CRYPTIC (date_of_ymd 2024 4 3)
            (sample_record (lit "Cryptic") sample_grid).

Definition ragged_crossword : Crossword :=
  extracted CRYPTIC (date_of_ymd 2024 4 3)
            (sample_record (lit "CRYPTIC") ragged_grid).

(** The sample record with both free-text fields, and its puzzle. *)
Definition noted_crossword : Crossword :=
  extracted CRYPTIC (date_of_ymd 2024 4 3)
    (mkRecord (lit "2024-04-03") (lit "CRYPTIC") (lit "DA") sample_grid
       [mkClue 1 (lit "Cold (3)"); mkClue 4 (lit " Old (3)")]
       [mkClue 1 (lit "Cot (3)"); mkClue 2 (lit "Ode (3)")]
       (Some (lit "No anagrams")) (Some (lit "Easy"))).

Definition noted_puzzle : Puzzle :=
  mkPuzzle (lit "The Sydney Morning Herald")
           (lit "Cryptic, Wednesday, April 03, 2024") (lit "Created by DA")
           3 3 (lit "CODO.OTEN") (lit "----.----")
           (List.map (fun s => Some (lit s))
                     ["Cold (3)"; "Cot (3)"; "Ode (3)"; "Old (3)"]%string)
           (Some (lit "No anagrams" ++ [10%N] ++ lit "Easy")).

Definition noted_log : list ConversionRecord :=
  [(lit " Old (3)", lit "Old (3)",
    lit "clue Cryptic, Wednesday, April 03, 2024")].

(** A script element that the loop of [extract_crossword] passes over: no
    text, empty text, or text in which the pattern is not found. *)
Definition passed_over (script : option str) : Prop :=
  match script with
  | Some (c :: text) => re_search_group (c :: text) = None
  | _ => True
  end.

(** A character of the document that reaches the page on one line and
    comes back intact: it [survives], and a newline is written as an
    escape. *)
Definition page_safe (escaped : N -> bool) (c : N) : Prop :=
  survives escaped c /\ (c = 10%N -> escaped c = true).

(** Nothing more on the line: the text ends or a newline follows. *)
Definition line_ends (tail : str) : Prop :=
  match tail with
  | [] => True
  | c :: _ => c = 10%N
  end.

(** A document with a quoted, accented string, the escaping that writes
    every non-ASCII character as an escape, the page made of them, and a JSON
    reader that knows this document only. *)
Definition accented_document : str :=
  [123; 34; 97; 34; 58; 34; 233; 34; 125]%N.

Definition escape_non_ascii (c : N) : bool := (128 <=? c)%N.

Definition accented_page : bytes :=
  state_prefix ++ js_escape escape_non_ascii accented_document ++ state_suffix.

Definition reads_accented (json_string : str)
  : result (option RawCrosswordRecord) :=
  if str_eqb json_string accented_document
  then Ok (Some (sample_record (lit "CRYPTIC") sample_grid))
  else Raise JSONDecodeError.

Definition plain_page : bytes := lit "<html><body>No puzzle today</body></html>".

(** What decoding leaves of a document [J], seen through lengths: at least
    one character per character of [J], and exactly one each only when all
    of them [survive]. *)
Definition keeps_or_grows (escaped : N -> bool) (J : str)
    (x : option (result str)) : Prop :=
  exists r,
    x = Some r
    /\ forall out,
         r = Ok out ->
         (List.length J <= List.length out)%nat
         /\ (List.length out = List.length J -> Forall (survives escaped) J).

(** The number of line ends in a text. *)
Definition count_newlines (s : str) : nat :=
  List.length (List.filter (fun c => (c =? 10)%N) s).

(** A [repr] that writes a newline as backslash-n between single quotes. *)
Definition quoted_one_line (s : str) : str :=
  [39%N]
    ++ List.concat
         (List.map (fun c => if (c =? 10)%N then [92%N; 110%N] else [c]) s)
    ++ [39%N].

(** ** The processing loop of [download] (lines 305-314)

    What the loop leaves behind: the conversion log, the puzzles saved with
    their destinations, and the items that failed with the exception that
    was caught and reported.  The progress bar is not modelled. *)
Record Run : Type := mkRun {
  run_log : list ConversionRecord;
  run_saved : list (Path * Puzzle);
  run_failed : list (CrosswordType * date * exn)
}.

Section Download.

Variables (html2text demojize unidecode : str -> str).
Variable script_strings : bytes -> list (option str).
Variable loads_crossword : str -> result (option RawCrosswordRecord).
Variable ucd_lookup : bytes -> option N.

(** [Puzzle.save(str(destination))] of the puz library: whether it
    returns or raises. *)
Variable save : Puzzle -> Path -> result unit.

(** The body of the [try] statement for one item, on a given log. *)
Definition attempt (cw : Crossword) (destination : Path)
    (log : list ConversionRecord)
  : result Puzzle * list ConversionRecord :=
  match extract_crossword script_strings loads_crossword ucd_lookup cw with
  | (Raise e, _) => (Raise e, log)
  | (Ok _, cw') =>
      match to_puzzle html2text demojize unidecode cw' log with
      | (Raise e, log') => (Raise e, log')
      | (Ok p, log') =>
          match save p destination with
          | Ok _ => (Ok p, log')
          | Raise e => (Raise e, log')
          end
      end
  end.

(** One turn of the loop: the exception of a failed item is caught and
    reported, and the loop goes on. *)
Definition process_one (run : Run) (item : Crossword * Path) : Run :=
  let '(cw, destination) := item in
  match attempt cw destination (run_log run) with
  | (Ok p, log') =>
      mkRun log' (run_saved run ++ [(destination, p)]) (run_failed run)
  | (Raise e, log') =>
      mkRun log' (run_saved run)
            (run_failed run ++ [(crossword_type cw, cw_date cw, e)])
  end.

Definition process_crosswords (crossword_objs : list (Crossword * Path))
    (run : Run) : Run :=
  fold_left process_one crossword_objs run.

(** What one item gives when it is processed on its own. *)
Definition alone (item : Crossword * Path) : result Puzzle :=
  fst (attempt (fst item) (snd item) []).

End Download.

(** A record of the conversion log that records a change. *)
Definition records_change (rec : ConversionRecord) : Prop :=
  fst (fst rec) <> snd (fst rec).

(** What one item adds to the saved puzzles and to the reported failures,
    computed from the item on its own. *)
Definition saved_of (outcome : Crossword * Path -> result Puzzle)
    (item : Crossword * Path) : list (Path * Puzzle) :=
  match outcome item with
  | Ok p => [(snd item, p)]
  | Raise _ => []
  end.

Definition failed_of (outcome : Crossword * Path -> result Puzzle)
    (item : Crossword * Path) : list (CrosswordType * date * exn) :=
  match outcome item with
  | Ok _ => []
  | Raise e => [(crossword_type (fst item), cw_date (fst item), e)]
  end.

(** A [save] that refuses one destination. *)
Definition save_unless (refused : Path) (p : Puzzle) (destination : Path)
  : result unit :=
  if bool_decide (destination = refused) then Raise (ValueError []) else Ok tt.

Definition sample_items : list (Crossword * Path) :=
  [(Crossword_init MINI (date_of_ymd 2024 4 3) (mkResponse true plain_page),
    [lit "out"; lit "mini"; lit "2024-04-03-mini.puz"]);
   (Crossword_init CRYPTIC (date_of_ymd 2024 4 3)
      (mkResponse true accented_page),
    [lit "out"; lit "cryptic"; lit "2024-04-03-cryptic.puz"]);
   (Crossword_init CRYPTIC (date_of_ymd 2024 4 3) (mkResponse false []),
    [lit "out"; lit "cryptic"; lit "2024-04-03-cryptic.puz"])].

(** A record of the log written by a call with this context: the original
    is not the sanitized text. *)
Definition changed_with (context : str) (rec : ConversionRecord) : Prop :=
  let '(original, sanitized, ctx) := rec in
  original <> sanitized /\ ctx = context.

(** ** Properties *)

Section Sorting.

Context {A : Type} (key : A -> Z).

Local Abbreviation ascending := (ascending key).

Lemma insert_by_key_perm x l : Permutation (insert_by_key key x l) (x :: l).
Proof.
  induction l as [|y l IH]; cbn; [reflexivity|].
  destruct (key y <? key x); [|reflexivity].
  rewrite IH. apply perm_swap.
Qed.

Lemma sorted_perm l : Permutation (sorted key l) l.
Proof.
  induction l as [|x l IH]; cbn; [reflexivity|].
  rewrite insert_by_key_perm. now constructor.
Qed.

Lemma insert_by_key_ascending x l :
  ascending l -> ascending (insert_by_key key x l).
Proof.
  unfold ascending. induction 1 as [|y l Hl IH Hy]; cbn.
  - repeat constructor.
  - destruct (key y <? key x) eqn:E.
    + apply Z.ltb_lt in E. constructor; [exact IH|].
      rewrite insert_by_key_perm. constructor; [lia|exact Hy].
    + apply Z.ltb_ge in E. constructor; [now constructor|].
      constructor; [exact E|].
      eapply Forall_impl; [exact Hy|]. cbn. intros; lia.
Qed.

Lemma sorted_ascending l : ascending (sorted key l).
Proof.
  induction l as [|x l IH]; cbn; [constructor|].
  now apply insert_by_key_ascending.
Qed.

(** Stability, by key: the elements with a given key keep their order. *)
Lemma insert_by_key_filter k x l :
  List.filter (fun c => key c =? k) (insert_by_key key x l)
  = List.filter (fun c => key c =? k) (x :: l).
Proof.
  induction l as [|y l IH]; [reflexivity|]. cbn [insert_by_key].
  destruct (key y <? key x) eqn:E; [|reflexivity].
  apply Z.ltb_lt in E. cbn [List.filter] in *. rewrite IH.
  destruct (key y =? k) eqn:Ey, (key x =? k) eqn:Ex; try reflexivity.
  apply Z.eqb_eq in Ey, Ex. lia.
Qed.

Lemma sorted_filter k l :
  List.filter (fun c => key c =? k) (sorted key l)
  = List.filter (fun c => key c =? k) l.
Proof.
  induction l as [|x l IH]; [reflexivity|]. cbn [sorted].
  rewrite insert_by_key_filter. cbn [List.filter]. now rewrite IH.
Qed.

Lemma precedes_cons (a d y : A) l : precedes a d l -> precedes a d (y :: l).
Proof.
  intros (l1 & l2 & l3 & ->). now exists (y :: l1), l2, l3.
Qed.

Lemma precedes_head (a d : A) l : In d l -> precedes a d (a :: l).
Proof.
  intros H. apply in_split in H as (l2 & l3 & ->). now exists [], l2, l3.
Qed.

Lemma precedes_inv (a d y : A) l :
  precedes a d (y :: l) -> (y = a /\ In d l) \/ precedes a d l.
Proof.
  intros ([|z l1] & l2 & l3 & E); cbn in E; injection E as -> ->.
  - left. split; [reflexivity|]. apply in_or_app. right. now left.
  - right. now exists l1, l2, l3.
Qed.

Lemma insert_by_key_keeps_order (x a d : A) l :
  precedes a d l -> precedes a d (insert_by_key key x l).
Proof.
  induction l as [|y l IH]; intros H; cbn [insert_by_key].
  - now apply precedes_cons.
  - destruct (key y <? key x); [|now apply precedes_cons].
    apply precedes_inv in H as [[-> Hd]|H].
    + apply precedes_head.
      apply (Permutation_in _ (Permutation_sym (insert_by_key_perm x l))).
      now right.
    + apply precedes_cons. now apply IH.
Qed.

Lemma insert_by_key_before (x d : A) l :
  In d l -> key x <= key d -> precedes x d (insert_by_key key x l).
Proof.
  induction l as [|y l IH]; intros Hin Hle; [destruct Hin|].
  cbn [insert_by_key]. destruct (key y <? key x) eqn:E.
  - apply Z.ltb_lt in E. apply precedes_cons. apply IH; [|exact Hle].
    destruct Hin as [->|Hin]; [lia|exact Hin].
  - now apply precedes_head.
Qed.

(** Stability, by order: an element that comes first and whose key is not
    larger stays first. *)
Lemma sorted_keeps_order (a d : A) l :
  precedes a d l -> key a <= key d -> precedes a d (sorted key l).
Proof.
  induction l as [|x l IH]; intros H Hle.
  - destruct H as ([|? ?] & ? & ? & ?); discriminate.
  - cbn [sorted]. apply precedes_inv in H as [[-> Hd]|H].
    + apply insert_by_key_before; [|exact Hle].
      apply (Permutation_in _ (Permutation_sym (sorted_perm l))). exact Hd.
    + apply insert_by_key_keeps_order. now apply IH.
Qed.

Lemma precedes_app (a d : A) l1 l2 : In a l1 -> In d l2 -> precedes a d (l1 ++ l2).
Proof.
  intros Ha Hd.
  apply in_split in Ha as (p1 & p2 & ->), Hd as (q1 & q2 & ->).
  exists p1, (p2 ++ q1), q2. now rewrite <- !app_assoc.
Qed.

End Sorting.

Section PipelineFacts.

Variables (html2text demojize unidecode : str -> str).
Variable script_strings : bytes -> list (option str).
Variable loads_crossword : str -> result (option RawCrosswordRecord).
Variable ucd_lookup : bytes -> option N.

Local Abbreviation to_puzzle' := (to_puzzle html2text demojize unidecode).
Local Abbreviation extract' :=
  (extract_crossword script_strings loads_crossword ucd_lookup).
Local Abbreviation extract_n :=
  (extract_repeatedly script_strings loads_crossword ucd_lookup).

Lemma str_eqb_eq (a b : str) : str_eqb a b = true <-> a = b.
Proof. unfold str_eqb. apply bool_decide_eq_true. Qed.

Lemma str_eqb_neq (a b : str) : str_eqb a b = false <-> a <> b.
Proof. unfold str_eqb. apply bool_decide_eq_false. Qed.

(** What a successful build has checked and computed. *)
Lemma to_puzzle_Ok_inv self log p log' :
  to_puzzle' self log = (Ok p, log') ->
  exists data row0 rows,
    crossword_data self = Some (Some data)
    /\ r_date data = isoformat (cw_date self)
    /\ r_type data = upper (value (crossword_type self))
    /\ grid data = row0 :: rows
    /\ width p = List.length row0
    /\ height p = List.length (grid data)
    /\ solution p = List.concat (List.map (@List.concat N) (grid data))
    /\ clues p =
         fst (sanitize_each html2text demojize unidecode
                (List.map question (sorted position (across data ++ down data)))
                (lit "clue " ++ title p) log).
Proof.
  unfold to_puzzle. intros H.
  destruct (crossword_data self) as [[data|]|]; try discriminate.
  destruct (str_eqb (r_date data) _) eqn:Hd; cbn [negb] in H;
    try discriminate.
  destruct (str_eqb (upper _) (r_type data)) eqn:Ht; cbn [negb] in H;
    try discriminate.
  destruct (grid data) as [|row0 rows] eqn:Hg; try discriminate.
  destruct (sanitize_each _ _ _ _ _ _) as [cl log1] eqn:Hc.
  destruct (_sanitize_for_latin1 _ _ _ _ _ _) as [nt log2].
  match type of H with
  | (Ok ?q, _) = _ => assert (Hp : p = q) by congruence
  end.
  subst p. exists data, row0, rows.
  cbn [width height solution clues title].
  apply str_eqb_eq in Hd, Ht. rewrite Hc, Hg. cbn [fst]. auto 10.
Qed.

Lemma extract_failure_keeps_object self e self' :
  extract' self = (Raise e, self') -> self' = self.
Proof.
  unfold extract_crossword. intros H.
  destruct (response self) as [resp|]; [|congruence].
  destruct (status_ok resp); simpl in H; [|congruence].
  destruct (content resp); [congruence|].
  destruct (scan_scripts _ _ _); congruence.
Qed.

Lemma extract_repeatedly_no_success n self :
  crossword_data self = None ->
  ~ In (Ok tt) (fst (extract_n n self)) ->
  crossword_data (snd (extract_n n self)) = None.
Proof.
  revert self. induction n as [|n IH]; intros self Hnone Hin; [exact Hnone|].
  simpl in *.
  destruct (extract' self) as [outcome self1] eqn:He.
  destruct (extract_n n self1) as [outcomes self2] eqn:Hn.
  simpl in *. destruct outcome as [[]|e]; [tauto|].
  apply extract_failure_keeps_object in He. subst self1.
  specialize (IH self Hnone). rewrite Hn in IH. apply IH. tauto.
Qed.

(** C9. [to_puzzle] on an object without the [crossword_data] attribute
    raises [RuntimeError] with the message that no crossword data is
    available, returns no puzzle and leaves the conversion log alone.  A
    freshly constructed object has no such attribute, and as long as no
    call of [extract_crossword] on it has returned normally it still has
    none; hence a [to_puzzle] that returns a puzzle was preceded by a
    successful extraction. *)
Theorem to_puzzle_needs_extraction t d resp n log :
  (forall self, crossword_data self = None ->
     to_puzzle' self log = (Raise (RuntimeError no_data_message), log))
  /\ (~ In (Ok tt) (fst (extract_n n (Crossword_init t d resp))) ->
      to_puzzle' (snd (extract_n n (Crossword_init t d resp))) log
      = (Raise (RuntimeError no_data_message), log))
  /\ (forall p log',
        to_puzzle' (snd (extract_n n (Crossword_init t d resp))) log
        = (Ok p, log') ->
        In (Ok tt) (fst (extract_n n (Crossword_init t d resp)))).
Proof.
  assert (Hunset : forall self, crossword_data self = None ->
            to_puzzle' self log = (Raise (RuntimeError no_data_message), log)).
  { intros self H. unfold to_puzzle. now rewrite H. }
  split; [exact Hunset|]. split.
  - intros Hno. apply Hunset. now apply extract_repeatedly_no_success.
  - intros p log' Hok.
    destruct (in_dec (fun a b : result unit => ltac:(repeat decide equality))
                (Ok tt) (fst (extract_n n (Crossword_init t d resp))))
      as [Hin|Hno]; [exact Hin|].
    rewrite Hunset in Hok by now apply extract_repeatedly_no_success.
    discriminate.
Qed.

(** C5 (as amended). On an object holding a record, [to_puzzle] raises
    [AssertionError] exactly when the record's date string differs from
    the requested date in ISO form, or the record's type string differs
    from the upper-cased name of the requested type.  The record's type is
    compared as it is, without changing its case. *)
Theorem to_puzzle_validation self data log :
  crossword_data self = Some (Some data) ->
  fst (to_puzzle' self log) = Raise AssertionError
  <-> (r_date data <> isoformat (cw_date self)
       \/ r_type data <> upper (value (crossword_type self))).
Proof.
  intros Hdata. unfold to_puzzle. rewrite Hdata.
  destruct (str_eqb (r_date data) _) eqn:Hd; cbn [negb].
  2:{ apply str_eqb_neq in Hd. cbn [fst]. tauto. }
  destruct (str_eqb (upper _) (r_type data)) eqn:Ht; cbn [negb].
  2:{ apply str_eqb_neq in Ht. cbn [fst]. split; [|reflexivity].
      intros _. right. congruence. }
  apply str_eqb_eq in Hd, Ht. split.
  - destruct (grid data); [discriminate|].
    destruct (sanitize_each _ _ _ _ _ _).
    destruct (_sanitize_for_latin1 _ _ _ _ _ _). discriminate.
  - intros [H|H]; congruence.
Qed.

Lemma rows_solution_length w (g : list (list str)) :
  Forall (fun row => List.length row = w) g ->
  single_characters g ->
  List.length (List.concat (List.map (@List.concat N) g))
  = (w * List.length g)%nat.
Proof.
  unfold single_characters.
  induction g as [|row g IH]; intros Hw Hc; cbn; [lia|].
  inversion Hw as [|? ? Hrow Hw']; inversion Hc as [|? ? Hcells Hc'];
    subst.
  rewrite length_app, IH by assumption.
  assert (Hlen : List.length (List.concat row) = List.length row).
  { clear -Hcells. induction Hcells as [|c r Hc _ IHr]; cbn; [reflexivity|].
    rewrite length_app, Hc, IHr. reflexivity. }
  rewrite Hlen. lia.
Qed.

Lemma built_puzzle_dimensions self log p log' :
  to_puzzle' self log = (Ok p, log') ->
  exists data row0 rows,
    crossword_data self = Some (Some data)
    /\ grid data = row0 :: rows
    /\ width p = List.length row0
    /\ height p = List.length (grid data)
    /\ (rows_equal_length (grid data) -> single_characters (grid data) ->
        List.length (solution p) = (width p * height p)%nat).
Proof.
  intros H.
  apply to_puzzle_Ok_inv in H
    as (data & row0 & rows & Hdata & _ & _ & Hg & Hw & Hh & Hs & _).
  exists data, row0, rows. repeat split; try assumption.
  intros [w Hrows] Hcells. rewrite Hs, Hw, Hh.
  assert (w = List.length row0) as ->.
  { rewrite Hg in Hrows. now inversion Hrows. }
  now apply rows_solution_length.
Qed.

(** Once date and type match, any non-empty grid is built. *)
Lemma to_puzzle_builds self data log :
  crossword_data self = Some (Some data) ->
  r_date data = isoformat (cw_date self) ->
  r_type data = upper (value (crossword_type self)) ->
  grid data <> [] ->
  exists p log', to_puzzle' self log = (Ok p, log').
Proof.
  intros Hdata Hd Ht Hg. unfold to_puzzle. rewrite Hdata.
  rewrite (proj2 (str_eqb_eq _ _) Hd).
  rewrite (proj2 (str_eqb_eq _ _) (eq_sym Ht)). cbn [negb].
  destruct (grid data) as [|row0 rows]; [congruence|].
  destruct (sanitize_each _ _ _ _ _ _) as [cl log1].
  destruct (_sanitize_for_latin1 _ _ _ _ _ _) as [nt log2]. eauto.
Qed.

(** C1 (as amended). [to_puzzle] does not compare the lengths of the grid
    rows: once date and type match, every record with a non-empty grid is
    built, whatever the lengths of its rows.  A puzzle it returns has
    [height] the number of rows and [width] the length of the first row;
    when all rows of the record have the same length (and the cells are
    single characters, as in the data model), the solution has
    [width * height] characters. *)
Theorem to_puzzle_dimensions self log :
  (forall data,
     crossword_data self = Some (Some data) ->
     r_date data = isoformat (cw_date self) ->
     r_type data = upper (value (crossword_type self)) ->
     grid data <> [] ->
     exists p log', to_puzzle' self log = (Ok p, log'))
  /\ (forall p log',
        to_puzzle' self log = (Ok p, log') ->
        exists data row0 rows,
          crossword_data self = Some (Some data)
          /\ grid data = row0 :: rows
          /\ width p = List.length row0
          /\ height p = List.length (grid data)
          /\ (rows_equal_length (grid data) ->
              single_characters (grid data) ->
              List.length (solution p) = (width p * height p)%nat)).
Proof.
  split.
  - intros data. apply to_puzzle_builds.
  - intros p log'. apply built_puzzle_dimensions.
Qed.

Lemma sanitize_value text context log :
  fst (_sanitize_for_latin1 html2text demojize unidecode (Some text)
         context log)
  = sanitized_value html2text demojize unidecode text.
Proof.
  unfold _sanitize_for_latin1, sanitized_value.
  destruct text; [reflexivity|]. now destruct (bool_decide _).
Qed.

Lemma sanitize_each_values texts context log :
  fst (sanitize_each html2text demojize unidecode texts context log)
  = List.map (sanitized_value html2text demojize unidecode) texts.
Proof.
  revert log. induction texts as [|t texts IH]; intros log; [reflexivity|].
  cbn [sanitize_each List.map].
  pose proof (sanitize_value t context log) as Hv.
  destruct (_sanitize_for_latin1 _ _ _ _ _ _) as [v log1].
  specialize (IH log1).
  destruct (sanitize_each _ _ _ _ _ _) as [vs log2].
  cbn [fst] in *. now rewrite Hv, IH.
Qed.

(** C6. The clue sequence of a built puzzle is the sanitized question of
    each clue of [sorted_clues], where [sorted_clues] is a rearrangement
    of the across clues followed by the down clues, in ascending order of
    position, in which clues of equal position keep the order they had;
    in particular an across clue comes before every down clue of the same
    position. *)
Theorem clues_sorted_across_before_down self log p log' :
  to_puzzle' self log = (Ok p, log') ->
  exists data sorted_clues,
    crossword_data self = Some (Some data)
    /\ clues p
       = List.map (fun c => sanitized_value html2text demojize unidecode
                              (question c)) sorted_clues
    /\ Permutation sorted_clues (across data ++ down data)
    /\ ascending position sorted_clues
    /\ (forall k,
          List.filter (fun c => position c =? k) sorted_clues
          = List.filter (fun c => position c =? k) (across data)
            ++ List.filter (fun c => position c =? k) (down data))
    /\ (forall a d,
          In a (across data) -> In d (down data) ->
          position a = position d -> precedes a d sorted_clues).
Proof.
  intros H.
  apply to_puzzle_Ok_inv in H
    as (data & row0 & rows & Hdata & _ & _ & _ & _ & _ & _ & Hc).
  exists data, (sorted position (across data ++ down data)).
  split; [exact Hdata|]. split.
  { rewrite Hc, sanitize_each_values, List.map_map. reflexivity. }
  split; [apply sorted_perm|]. split; [apply sorted_ascending|]. split.
  - intros k. rewrite sorted_filter. apply List.filter_app.
  - intros a d Ha Hd Hpos. apply sorted_keeps_order; [|lia].
    now apply precedes_app.
Qed.

End PipelineFacts.

(** *** The pipeline at explicit inputs *)

Example sample_puzzle_built :
  to_puzzle html2text_plain leave_as_is leave_as_is sample_crossword []
  = (Ok sample_puzzle, []).
Proof. vm_compute. reflexivity. Qed.

Example sample_extraction :
  extract_crossword whole_body_script
    (fun _ => Ok (Some (sample_record (lit "CRYPTIC") sample_grid))) no_names
    (Crossword_init CRYPTIC (date_of_ymd 2024 4 3) sample_response)
  = (Ok tt, sample_crossword).
Proof. vm_compute. reflexivity. Qed.

Lemma to_puzzle_needs_extraction_witness :
  to_puzzle html2text_plain leave_as_is leave_as_is
    (Crossword_init CRYPTIC (date_of_ymd 2024 4 3) sample_response) []
  = (Raise (RuntimeError no_data_message), []).
Proof.
  apply (proj1 (to_puzzle_needs_extraction html2text_plain leave_as_is
                  leave_as_is whole_body_script (fun _ => Ok None) no_names
                  CRYPTIC (date_of_ymd 2024 4 3) sample_response 0 [])).
  reflexivity.
Defined.

Lemma to_puzzle_validation_witness :
  fst (to_puzzle html2text_plain leave_as_is leave_as_is
         mixed_case_crossword []) = Raise AssertionError
  <-> (lit "2024-04-03" <> isoformat (date_of_ymd 2024 4 3)
       \/ lit "Cryptic" <> upper (value CRYPTIC)).
Proof.
  apply (to_puzzle_validation html2text_plain leave_as_is leave_as_is
           mixed_case_crossword (sample_record (lit "Cryptic") sample_grid) []).
  reflexivity.
Defined.

(** A record whose type is the requested one in mixed case: the claim's
    condition for failure is false, and the validation fails. *)
Lemma mixed_case_type_fails_validation :
  ~ (fst (to_puzzle html2text_plain leave_as_is leave_as_is
            mixed_case_crossword []) = Raise AssertionError
     <-> (lit "2024-04-03" <> isoformat (date_of_ymd 2024 4 3)
          \/ upper (lit "Cryptic") <> upper (value CRYPTIC))).
Proof.
  intros [H _].
  destruct H as [H|H]; [vm_compute; reflexivity| |]; apply H; vm_compute;
    reflexivity.
Qed.

Lemma to_puzzle_dimensions_witness :
  exists data row0 rows,
    crossword_data sample_crossword = Some (Some data)
    /\ grid data = row0 :: rows
    /\ width sample_puzzle = List.length row0
    /\ height sample_puzzle = List.length (grid data)
    /\ (rows_equal_length (grid data) -> single_characters (grid data) ->
        List.length (solution sample_puzzle)
        = (width sample_puzzle * height sample_puzzle)%nat).
Proof.
  apply (proj2 (to_puzzle_dimensions html2text_plain leave_as_is leave_as_is
                  sample_crossword []) sample_puzzle []).
  vm_compute. reflexivity.
Defined.

(** A record with rows of lengths 2 and 1: a puzzle is returned, of width 2
    and height 2, with a solution of 3 characters. *)
Lemma ragged_grid_is_built :
  ~ rows_equal_length ragged_grid
  /\ exists p log',
       to_puzzle html2text_plain leave_as_is leave_as_is ragged_crossword []
       = (Ok p, log')
       /\ width p = 2%nat /\ height p = 2%nat
       /\ List.length (solution p) = 3%nat
       /\ List.length (solution p) <> (width p * height p)%nat.
Proof.
  split.
  - intros [w Hw]. unfold ragged_grid in Hw. cbn in Hw.
    inversion Hw as [|? ? H1 Hw']. inversion Hw' as [|? ? H2 _].
    cbn in H1, H2. congruence.
  - eexists. eexists. split; [vm_compute; reflexivity|].
    cbn. repeat split; congruence.
Qed.

Lemma clues_sorted_across_before_down_witness :
  exists data sorted_clues,
    crossword_data sample_crossword = Some (Some data)
    /\ clues sample_puzzle
       = List.map (fun c => sanitized_value html2text_plain leave_as_is
                              leave_as_is (question c)) sorted_clues
    /\ Permutation sorted_clues (across data ++ down data)
    /\ ascending position sorted_clues
    /\ (forall k,
          List.filter (fun c => position c =? k) sorted_clues
          = List.filter (fun c => position c =? k) (across data)
            ++ List.filter (fun c => position c =? k) (down data))
    /\ (forall a d,
          In a (across data) -> In d (down data) ->
          position a = position d -> precedes a d sorted_clues).
Proof.
  apply (clues_sorted_across_before_down html2text_plain leave_as_is
           leave_as_is sample_crossword [] sample_puzzle []).
  vm_compute. reflexivity.
Defined.

(** *** The sanitizer *)

Section SanitizerFacts.

Variables (html2text demojize unidecode : str -> str).

Local Abbreviation sanitize :=
  (_sanitize_for_latin1 html2text demojize unidecode).

Lemma lstrip_spaces lead s : all_space lead -> lstrip (lead ++ s) = lstrip s.
Proof.
  induction 1 as [|c lead Hc _ IH]; [reflexivity|]. cbn. now rewrite Hc.
Qed.

Lemma lstrip_app s t :
  lstrip s <> [] -> lstrip (s ++ t) = lstrip s ++ t.
Proof.
  induction s as [|c s IH]; cbn; [congruence|].
  destruct (is_space c); [exact IH|reflexivity].
Qed.

Lemma lstrip_all_space s : lstrip s = [] -> all_space s.
Proof.
  induction s as [|c s IH]; cbn; [constructor|].
  destruct (is_space c) eqn:E; [|discriminate].
  intros H. constructor; [exact E|exact (IH H)].
Qed.

Lemma all_space_lstrip s : all_space s -> lstrip s = [].
Proof.
  intros H. rewrite <- (app_nil_r s). now rewrite lstrip_spaces.
Qed.

Lemma all_space_rev s : all_space s -> all_space (rev s).
Proof. unfold all_space. apply List.Forall_rev. Qed.

Lemma rstrip_spaces s trail : all_space trail -> rstrip (s ++ trail) = rstrip s.
Proof.
  intros H. unfold rstrip. rewrite rev_app_distr.
  now rewrite lstrip_spaces by now apply all_space_rev.
Qed.

Lemma all_space_app s t : all_space s -> all_space t -> all_space (s ++ t).
Proof. unfold all_space. intros. apply Forall_app. now split. Qed.

(** Whitespace around a text does not survive [strip]. *)
Lemma strip_padding lead s trail :
  all_space lead -> all_space trail -> strip (lead ++ s ++ trail) = strip s.
Proof.
  intros Hl Ht. unfold strip. rewrite lstrip_spaces by assumption.
  destruct (lstrip s) as [|c r] eqn:E.
  - apply lstrip_all_space in E.
    rewrite all_space_lstrip by now apply all_space_app. reflexivity.
  - rewrite lstrip_app by congruence. rewrite E.
    now apply rstrip_spaces.
Qed.

(** The result of [strip] never starts with whitespace. *)
Lemma lstrip_head s c r : lstrip s = c :: r -> is_space c = false.
Proof.
  induction s as [|x s IH]; cbn; [discriminate|].
  destruct (is_space x) eqn:E; [exact IH|]. congruence.
Qed.

Lemma lstrip_suffix s : exists lead, s = lead ++ lstrip s.
Proof.
  induction s as [|c s [lead IH]]; [now exists []|]. cbn.
  destruct (is_space c); [|now exists []].
  exists (c :: lead). cbn. now rewrite <- IH.
Qed.

Lemma rstrip_prefix s : exists trail, s = rstrip s ++ trail.
Proof.
  unfold rstrip. destruct (lstrip_suffix (rev s)) as [lead H].
  exists (rev lead). rewrite <- rev_app_distr, <- H. now rewrite rev_involutive.
Qed.

Lemma strip_head s c r : strip s = c :: r -> is_space c = false.
Proof.
  unfold strip. intros H.
  destruct (lstrip s) as [|x t] eqn:E.
  - discriminate.
  - destruct (rstrip_prefix (x :: t)) as [trail Ht]. rewrite H in Ht.
    cbn in Ht. injection Ht as -> _. now apply lstrip_head in E.
Qed.

(** C3 (as amended). Let [demojize] and [unidecode] return text of ASCII
    characters as it is.  A string of ASCII characters without markup (and
    so without emoji) that has no whitespace at its ends, and that html2text
    returns with nothing but ASCII whitespace added around it, is returned
    unchanged, and no record is appended to the conversion log. *)
Theorem sanitize_plain_text_unchanged text lead trail context log :
  (forall t, is_ascii t -> demojize t = t) ->
  (forall t, is_ascii t -> unidecode t = t) ->
  is_ascii text -> no_markup text ->
  strip text = text ->
  ascii_space lead -> ascii_space trail ->
  html2text text = lead ++ text ++ trail ->
  sanitize (Some text) context log = (Some text, log).
Proof.
  intros Hemoji Huni Hascii Hmarkup Hstrip [Hlead Hla] [Htrail Hta] Hhtml.
  assert (Hout : is_ascii (lead ++ text ++ trail)).
  { unfold is_ascii in *. apply Forall_app. split; [exact Hla|].
    apply Forall_app. now split. }
  unfold _sanitize_for_latin1.
  destruct text as [|c t]; [reflexivity|].
  unfold sanitized_text.
  rewrite Hhtml, (Hemoji _ Hout), (Huni _ Hout).
  rewrite strip_padding, Hstrip by assumption.
  rewrite bool_decide_eq_false_2; [reflexivity|].
  intros H. now apply H.
Qed.

(** Whatever the libraries do, a string that starts with whitespace is not
    returned unchanged with an unchanged log. *)
Lemma sanitize_changes_leading_space c text context log :
  is_space c = true ->
  sanitize (Some (c :: text)) context log <> (Some (c :: text), log).
Proof.
  intros Hc. unfold _sanitize_for_latin1.
  destruct (bool_decide_reflect
              (sanitized_text html2text demojize unidecode (c :: text)
               <> c :: text)) as [Hne|Heq].
  - intros H. apply Hne. congruence.
  - intros _. apply Heq. intros H. unfold sanitized_text in H.
    apply strip_head in H. congruence.
Qed.

End SanitizerFacts.

Lemma sanitize_plain_text_unchanged_witness :
  _sanitize_for_latin1 html2text_plain leave_as_is leave_as_is
    (Some (lit "Cold (3)")) (lit "clue") []
  = (Some (lit "Cold (3)"), []).
Proof.
  apply (sanitize_plain_text_unchanged html2text_plain leave_as_is leave_as_is
           (lit "Cold (3)") [] [10%N; 10%N] (lit "clue") []).
  - reflexivity.
  - reflexivity.
  - repeat constructor.
  - split; cbn; intros Hin; repeat destruct Hin as [Hin|Hin]; try discriminate;
      exact Hin.
  - reflexivity.
  - split; constructor.
  - split; repeat constructor.
  - reflexivity.
Defined.

(** The two-character string of a space and the letter a is ASCII, has no
    markup and no emoji, and is never returned as it is. *)
Lemma leading_space_is_not_kept :
  ~ (exists html2text demojize unidecode,
       forall text context log,
         is_ascii text -> no_markup text ->
         _sanitize_for_latin1 html2text demojize unidecode (Some text)
           context log
         = (Some text, log)).
Proof.
  intros (h & d & u & H).
  apply (sanitize_changes_leading_space h d u 32%N (lit "a") [] []);
    [reflexivity|].
  apply (H (lit " a")).
  - repeat constructor.
  - split; cbn; intros Hin; repeat destruct Hin as [Hin|Hin]; try discriminate;
      exact Hin.
Qed.

Example leading_space_is_logged :
  _sanitize_for_latin1 html2text_plain leave_as_is leave_as_is
    (Some (lit " a")) (lit "clue") []
  = (Some (lit "a"), [(lit " a", lit "a", lit "clue")]).
Proof. vm_compute. reflexivity. Qed.

(** The condition on html2text cannot be left out: it turns a run of blanks
    into one, so a string of ASCII characters without markup and without
    whitespace at its ends that has two spaces in a row comes back changed,
    and the change is logged. *)
Example inner_blanks_are_not_kept :
  is_ascii (lit "a  b") /\ no_markup (lit "a  b")
  /\ strip (lit "a  b") = lit "a  b"
  /\ _sanitize_for_latin1 html2text_blanks leave_as_is leave_as_is
       (Some (lit "a  b")) (lit "clue") []
     = (Some (lit "a b"), [(lit "a  b", lit "a b", lit "clue")]).
Proof.
  split; [repeat constructor|]. split.
  - split; cbn; intros Hin; repeat destruct Hin as [Hin|Hin]; try discriminate;
      exact Hin.
  - split; vm_compute; reflexivity.
Qed.

(** *** The conversion log file *)

Section ConversionLogFacts.

Variable repr : str -> str.
Variable timestamp : str.
Variable open_append : Path -> gmap Path str -> result unit.

Local Abbreviation flush := (_write_conversion_log repr timestamp open_append).
Local Abbreviation line := (log_line repr).

Lemma append_file_twice (p : Path) (a b : str) (fs : gmap Path str) :
  append_file p b (append_file p a fs) = append_file p (a ++ b) fs.
Proof.
  unfold append_file. rewrite lookup_insert_eq, insert_insert_eq. cbn.
  now rewrite app_assoc.
Qed.

Lemma fold_append_lines (p : Path) (a : str)
    (records : list ConversionRecord) (fs : gmap Path str) :
  fold_left (fun fs rec => append_file p (line rec) fs) records
            (append_file p a fs)
  = append_file p (a ++ List.concat (List.map line records)) fs.
Proof.
  revert a. induction records as [|r records IH]; intros a; cbn.
  - now rewrite app_nil_r.
  - rewrite append_file_twice, IH. now rewrite <- app_assoc.
Qed.

(** Every record is written as one line. *)
Lemma log_line_ends_line rec : exists body, line rec = body ++ [10%N].
Proof.
  destruct rec as [[original sanitized] context]. unfold log_line.
  eexists. rewrite !app_assoc. reflexivity.
Qed.

(** What a flush that can open the log file does to the state. *)
Lemma flush_opened output_path w :
  conversion_log w <> [] ->
  open_append (output_path ++ [lit "encoding-conversions.log"]) (files w)
  = Ok tt ->
  flush output_path w
  = (Ok tt,
     mkWorld []
       (append_file (output_path ++ [lit "encoding-conversions.log"])
          (log_header timestamp
             ++ List.concat (List.map line (conversion_log w)))
          (files w))
       (echoed w
          ++ [lit "Conversions logged to: "
                ++ path_str (output_path ++ [lit "encoding-conversions.log"])])).
Proof.
  intros Hne Hopen. unfold _write_conversion_log.
  destruct (conversion_log w) as [|r records] eqn:E; [congruence|].
  rewrite Hopen. cbn zeta. now rewrite fold_append_lines.
Qed.

(** C8 (as amended). Flushing with an empty [conversion_log] returns the
    state as it was: no file is opened.  Flushing with a non-empty one, when
    the log file can be opened for appending, appends to it an empty line,
    the header with the timestamp and one line for each record, in order
    (its context between brackets, then [repr] of the original, an arrow and
    [repr] of the sanitized text), leaves every other file alone and empties
    [conversion_log]; a flush right after it changes nothing.  When the log
    file cannot be opened, the exception of [open] leaves the function:
    nothing is written and [conversion_log] keeps its records. *)
Theorem flush_conversion_log output_path w :
  let log_file := output_path ++ [lit "encoding-conversions.log"] in
  (conversion_log w = [] -> flush output_path w = (Ok tt, w))
  /\ (conversion_log w <> [] ->
      open_append log_file (files w) = Ok tt ->
      exists w',
        flush output_path w = (Ok tt, w')
        /\ files w'
           = <[log_file :=
                 default [] (files w !! log_file)
                   ++ ([10%N] ++ lit "=== Conversion Log [" ++ timestamp
                         ++ lit "] ===" ++ [10%N])
                   ++ List.concat
                        (List.map
                           (fun '(original, sanitized, context) =>
                              lit "  [" ++ context ++ lit "] "
                                ++ repr original ++ [32%N; 8594%N; 32%N]
                                ++ repr sanitized ++ [10%N])
                           (conversion_log w))]> (files w)
        /\ (forall other, other <> log_file ->
              files w' !! other = files w !! other)
        /\ conversion_log w' = []
        /\ forall anywhere, flush anywhere w' = (Ok tt, w'))
  /\ (conversion_log w <> [] ->
      forall e, open_append log_file (files w) = Raise e ->
      flush output_path w = (Raise e, w)).
Proof.
  intros log_file. split; [|split].
  - unfold _write_conversion_log. intros ->. reflexivity.
  - intros Hne Hopen. eexists. split; [now apply flush_opened|].
    cbn [files conversion_log]. repeat split.
    intros other Hother. unfold append_file. now rewrite lookup_insert_ne.
  - intros Hne e Hopen. unfold _write_conversion_log.
    destruct (conversion_log w) as [|r records]; [congruence|].
    fold log_file. now rewrite Hopen.
Qed.

End ConversionLogFacts.

(** *** The date resolver *)

Lemma days_from_length start n : List.length (days_from start n) = n.
Proof.
  revert start. induction n as [|n IH]; intros start; cbn; [reflexivity|].
  now rewrite IH.
Qed.

Lemma days_from_nth start n k :
  (k < n)%nat ->
  nth_error (days_from start n) k = Some (mkdate (toordinal start + Z.of_nat k)).
Proof.
  revert start k. induction n as [|n IH]; intros start k Hk; [lia|].
  destruct k as [|k]; cbn.
  - destruct start as [o]. cbn. f_equal. f_equal. lia.
  - rewrite IH by lia. cbn. f_equal. f_equal. lia.
Qed.

Lemma collect_days start i n :
  1 <= toordinal start + Z.of_nat i ->
  toordinal start + Z.of_nat i + Z.of_nat n - 1 <= MAXORDINAL ->
  collect (fun offset => date_add_days start offset)
          (List.map Z.of_nat (seq i n))
  = Ok (days_from (mkdate (toordinal start + Z.of_nat i)) n).
Proof.
  revert i. induction n as [|n IH]; intros i Hlo Hhi; [reflexivity|].
  cbn [seq List.map collect days_from]. unfold date_add_days at 1.
  replace ((1 <=? toordinal start + Z.of_nat i)
           && (toordinal start + Z.of_nat i <=? MAXORDINAL)) with true
    by (symmetry; apply andb_true_intro; split; [apply Z.leb_le|apply Z.leb_le];
        lia).
  cbn [bind]. rewrite IH by lia. cbn [bind toordinal].
  do 4 f_equal. lia.
Qed.

(** The listing of lines 205-207 for valid ends in order. *)
Lemma collect_range (A B : date) :
  valid_date A -> valid_date B -> date_le A B ->
  collect (fun offset => date_add_days A offset)
          (range (date_sub_days B A + 1))
  = Ok (days_from A (Z.to_nat (date_sub_days B A + 1))).
Proof.
  unfold valid_date, date_le, date_sub_days, range. intros HA HB Hle.
  rewrite collect_days by (cbn; lia).
  destruct A as [o]. cbn. do 3 f_equal. lia.
Qed.

Section ResolverFacts.

Variable parse : str -> bool -> result datetime.
Variable astimezone_SYDNEY : datetime -> datetime.
Variable today : date.

Local Abbreviation parse_date := (_parse_single_date parse astimezone_SYDNEY).
Local Abbreviation resolve := (_resolve_dates parse astimezone_SYDNEY today).

Lemma split_colon_nonempty token a b :
  split_colon token = Some (a, b) -> token <> [].
Proof. intros H ->. discriminate. Qed.

(** A token with a colon whose two ends are not empty goes through the two
    attempts and the listing. *)
Lemma resolve_range token a b :
  split_colon token = Some (a, b) -> strip a <> [] -> strip b <> [] ->
  resolve (Some token)
  = (do ends <-
       match day_first_attempt parse astimezone_SYDNEY (strip a) (strip b) with
       | Raise AssertionError =>
           month_first_attempt parse astimezone_SYDNEY (strip a) (strip b)
       | other => other
       end;
     collect (fun offset => date_add_days (fst ends) offset)
             (range (date_sub_days (snd ends) (fst ends) + 1))).
Proof.
  intros Hsplit Ha Hb. unfold _resolve_dates.
  destruct token as [|c token]; [discriminate|]. rewrite Hsplit.
  destruct (strip a) as [|x sa]; [congruence|].
  destruct (strip b) as [|y sb]; [congruence|].
  destruct (match day_first_attempt _ _ _ _ with
            | Ok _ => _ | Raise _ => _ end) as [[s e]|err]; reflexivity.
Qed.

Lemma range_listing (A B : date) :
  valid_date A -> valid_date B -> date_le A B ->
  lists_the_days A B
    (collect (fun offset => date_add_days A offset)
             (range (date_sub_days B A + 1))).
Proof.
  intros HA HB Hle. rewrite collect_range by assumption.
  unfold date_le, date_sub_days in *.
  set (n := Z.to_nat (toordinal B - toordinal A + 1)).
  assert (Hn : (0 < n)%nat) by (subst n; lia).
  exists (days_from A n). rewrite days_from_length.
  repeat split.
  - unfold date_sub_days. subst n. lia.
  - intros k Hk. now apply days_from_nth.
  - destruct n; [lia|]. reflexivity.
  - assert (Hlast : nth_error (days_from A n) (n - 1)
                    = Some (mkdate (toordinal A + Z.of_nat (n - 1))))
      by (apply days_from_nth; lia).
    assert (Hlen := days_from_length A n).
    destruct (days_from A n) as [|d ds] eqn:E using rev_ind;
      [cbn in Hlen; lia|].
    rewrite last_snoc. rewrite length_app in Hlen. cbn in Hlen.
    rewrite nth_error_app2 in Hlast by lia.
    replace (n - 1 - List.length ds)%nat with 0%nat in Hlast by lia.
    cbn in Hlast. injection Hlast as ->. destruct B as [o]. cbn in *.
    do 2 f_equal. subst n. lia.
Qed.

(** C7. For a token [a:b] (split at its first colon) whose trimmed ends
    both parse with day-before-month precedence, to [A] and [B] with
    [A <= B], the resolver returns the consecutive dates [A], [A] + 1 day,
    ..., [B]: [(B - A).days + 1] of them, the first [A], the last [B]. *)
Theorem range_day_first token a b A B :
  split_colon token = Some (a, b) ->
  strip a <> [] -> strip b <> [] ->
  parse_date (strip a) true = Ok A ->
  parse_date (strip b) true = Ok B ->
  valid_date A -> valid_date B ->
  date_le A B ->
  lists_the_days A B (resolve (Some token)).
Proof.
  intros Hsplit Ha Hb HA HB HvA HvB Hle.
  rewrite (resolve_range _ _ _ Hsplit Ha Hb).
  unfold day_first_attempt. rewrite HA, HB. cbn [bind].
  unfold date_le in Hle. unfold date_leb.
  rewrite (proj2 (Z.leb_le _ _) Hle). cbn [bind fst snd].
  now apply range_listing.
Qed.

(** C4. Let the parser read with day-before-month precedence every text
    that it reads with month-before-day precedence (the precedence decides
    how an ambiguous day and month are told apart, not whether a text is a
    date).  For a token [a:b] that is invalid in the day-first reading (an
    end fails to parse, or the end is before the start) and whose trimmed
    ends parse with month-before-day precedence to [A <= B], the resolver
    returns the consecutive dates from [A] to [B]. *)
Theorem range_month_first_retry token a b A B :
  (forall raw, is_Ok (parse raw false) -> is_Ok (parse raw true)) ->
  split_colon token = Some (a, b) ->
  strip a <> [] -> strip b <> [] ->
  ((exists e, parse_date (strip a) true = Raise e)
   \/ (exists e, parse_date (strip b) true = Raise e)
   \/ (exists A1 B1,
         parse_date (strip a) true = Ok A1
         /\ parse_date (strip b) true = Ok B1
         /\ date_lt B1 A1)) ->
  parse_date (strip a) false = Ok A ->
  parse_date (strip b) false = Ok B ->
  valid_date A -> valid_date B ->
  date_le A B ->
  lists_the_days A B (resolve (Some token)).
Proof.
  intros Hreads Hsplit Ha Hb Hinvalid HA HB HvA HvB Hle.
  assert (Hday : forall raw d,
            parse_date raw false = Ok d -> exists d1, parse_date raw true = Ok d1).
  { intros raw d H. unfold _parse_single_date in *.
    destruct (parse raw false) as [p|] eqn:E; [|discriminate].
    destruct (Hreads raw) as [p1 Hp1]; [now exists p|].
    rewrite Hp1. cbn [bind]. eauto. }
  destruct (Hday _ _ HA) as [A1 HA1]. destruct (Hday _ _ HB) as [B1 HB1].
  assert (Hlt : date_lt B1 A1).
  { destruct Hinvalid as [[e He]|[[e He]|(A2 & B2 & HA2 & HB2 & Hlt)]];
      congruence. }
  rewrite (resolve_range _ _ _ Hsplit Ha Hb).
  unfold day_first_attempt. rewrite HA1, HB1. cbn [bind].
  unfold date_lt in Hlt. unfold date_leb.
  rewrite (proj2 (Z.leb_gt _ _) Hlt).
  unfold month_first_attempt. rewrite HA, HB. cbn [bind].
  unfold date_le in Hle. unfold date_ltb.
  rewrite (proj2 (Z.ltb_ge _ _) Hle). cbn [bind fst snd].
  now apply range_listing.
Qed.

(** A failure of the day-first reading is not retried: the exception of
    the parser leaves [_resolve_dates], whatever the month-first reading
    would give. *)
Lemma range_day_first_failure token a b e :
  split_colon token = Some (a, b) ->
  strip a <> [] -> strip b <> [] ->
  e <> AssertionError ->
  parse_date (strip a) true = Raise e ->
  resolve (Some token) = Raise e.
Proof.
  intros Hsplit Ha Hb He HA.
  rewrite (resolve_range _ _ _ Hsplit Ha Hb).
  unfold day_first_attempt. rewrite HA. cbn [bind].
  destruct e; try reflexivity. congruence.
Qed.

(** C10. A non-empty token without a colon is parsed once, with
    day-before-month precedence, and the date is returned as a
    one-element list; what the parser would answer with month-before-day
    precedence has no influence.  So when the day-first reading of the
    token is a naive [datetime], the result is its calendar date. *)
Theorem single_token_day_first token :
  token <> [] -> split_colon token = None ->
  resolve (Some token) = (do d <- parse_date token true; Ok [d])
  /\ (forall parse',
        (forall raw, parse' raw true = parse raw true) ->
        _resolve_dates parse' astimezone_SYDNEY today (Some token)
        = resolve (Some token))
  /\ (forall parsed,
        parse token true = Ok parsed -> tzinfo parsed = None ->
        resolve (Some token) = Ok [dt_date parsed]).
Proof.
  intros Hne Hsplit.
  assert (H1 : forall p, _resolve_dates p astimezone_SYDNEY today (Some token)
                     = (do d <- _parse_single_date p astimezone_SYDNEY
                                  token true; Ok [d])).
  { intros p. unfold _resolve_dates.
    destruct token; [congruence|]. now rewrite Hsplit. }
  split; [apply H1|]. split.
  - intros parse' Hsame. rewrite !H1. unfold _parse_single_date.
    now rewrite Hsame.
  - intros parsed Hp Htz. rewrite H1. unfold _parse_single_date.
    rewrite Hp. cbn [bind]. now rewrite Htz.
Qed.

End ResolverFacts.

Lemma range_day_first_witness :
  lists_the_days (date_of_ymd 2024 4 3) (date_of_ymd 2024 4 5)
    (_resolve_dates numeric_parse ten_hours_east new_year_2024
       (Some (lit "03/04/2024 : 05/04/2024"))).
Proof.
  apply (range_day_first numeric_parse ten_hours_east new_year_2024
           (lit "03/04/2024 : 05/04/2024") (lit "03/04/2024 ")
           (lit " 05/04/2024")).
  - reflexivity.
  - vm_compute. discriminate.
  - vm_compute. discriminate.
  - reflexivity.
  - reflexivity.
  - vm_compute. split; discriminate.
  - vm_compute. split; discriminate.
  - vm_compute. discriminate.
Defined.

Example range_day_first_dates :
  _resolve_dates numeric_parse ten_hours_east new_year_2024
    (Some (lit "03/04/2024 : 05/04/2024"))
  = Ok [date_of_ymd 2024 4 3; date_of_ymd 2024 4 4; date_of_ymd 2024 4 5].
Proof. vm_compute. reflexivity. Qed.

(** Every month is at least 28 days long. *)
Lemma days_in_month_lower y m : 1 <= m <= 12 -> 28 <= _days_in_month y m.
Proof.
  intros Hm. unfold _days_in_month.
  assert (Hcases : m = 1 \/ m = 2 \/ m = 3 \/ m = 4 \/ m = 5 \/ m = 6 \/ m = 7
                   \/ m = 8 \/ m = 9 \/ m = 10 \/ m = 11 \/ m = 12) by lia.
  clear Hm.
  repeat (destruct Hcases as [Hc|Hcases]); subst m;
    (destruct (_is_leap y); vm_compute; discriminate).
Qed.

(** [flexible_parse] reads day-first whatever it reads month-first. *)
Lemma flexible_parse_reads_day_first raw :
  is_Ok (flexible_parse raw false) -> is_Ok (flexible_parse raw true).
Proof.
  unfold flexible_parse, is_Ok.
  destruct (List.map number (split_on 47 raw))
    as [|[a|] [|[b|] [|[y|] [|more rest]]]];
    try (intros [p Hp]; discriminate).
  cbn [orb andb].
  destruct (12 <? a) eqn:Ea; cbn [orb]; [tauto|].
  destruct (b <=? 12) eqn:Eb; cbn [andb]; [|tauto].
  apply Z.ltb_ge in Ea. apply Z.leb_le in Eb.
  destruct ((1 <=? y) && (y <=? 9999) && (1 <=? a) && (a <=? 12)
            && (1 <=? b) && (b <=? _days_in_month y a)) eqn:E;
    [|intros [p Hp]; discriminate].
  intros _. repeat (apply andb_prop in E; destruct E as [E ?]).
  repeat match goal with
         | H : (_ <=? _) = true |- _ => apply Z.leb_le in H
         end.
  pose proof (days_in_month_lower y b ltac:(lia)) as Hlow.
  replace ((1 <=? y) && (y <=? 9999) && (1 <=? b) && (b <=? 12)
           && (1 <=? a) && (a <=? _days_in_month y b)) with true.
  - eauto.
  - symmetry. repeat (apply andb_true_intro; split); apply Z.leb_le; lia.
Qed.

Lemma range_month_first_retry_witness :
  lists_the_days (date_of_ymd 2024 3 7) (date_of_ymd 2024 4 1)
    (_resolve_dates flexible_parse ten_hours_east new_year_2024
       (Some (lit "03/07/2024:04/01/2024"))).
Proof.
  apply (range_month_first_retry flexible_parse ten_hours_east new_year_2024
           (lit "03/07/2024:04/01/2024") (lit "03/07/2024") (lit "04/01/2024")).
  - exact flexible_parse_reads_day_first.
  - reflexivity.
  - vm_compute. discriminate.
  - vm_compute. discriminate.
  - right. right. exists (date_of_ymd 2024 7 3), (date_of_ymd 2024 1 4).
    split; [reflexivity|]. split; [reflexivity|]. vm_compute. reflexivity.
  - reflexivity.
  - reflexivity.
  - vm_compute. split; discriminate.
  - vm_compute. split; discriminate.
  - vm_compute. discriminate.
Defined.

(** The same parser reads 12/25/2024 as the 25th of December both ways, so
    the range from it to the day after is valid day-first. *)
Example second_number_above_12 :
  _resolve_dates flexible_parse ten_hours_east new_year_2024
    (Some (lit "12/25/2024:12/26/2024"))
  = Ok [date_of_ymd 2024 12 25; date_of_ymd 2024 12 26].
Proof. vm_compute. reflexivity. Qed.

Lemma single_token_day_first_witness :
  _resolve_dates numeric_parse ten_hours_east new_year_2024
    (Some (lit "03/04/2024"))
  = Ok [date_of_ymd 2024 4 3]
  /\ _parse_single_date numeric_parse ten_hours_east (lit "03/04/2024") false
     = Ok (date_of_ymd 2024 3 4).
Proof.
  split; [|reflexivity].
  apply (proj2 (proj2 (single_token_day_first numeric_parse ten_hours_east
                         new_year_2024 (lit "03/04/2024")
                         ltac:(vm_compute; discriminate) eq_refl))
           (mkdatetime (date_of_ymd 2024 4 3) 0 None));
    reflexivity.
Defined.

Lemma flush_conversion_log_witness :
  _write_conversion_log quoted (lit "2024-04-03T10:00:00")
    (open_below [[lit "out"]]) [lit "out"] (mkWorld [] ∅ [])
  = (Ok tt, mkWorld [] ∅ [])
  /\ exists w',
       _write_conversion_log quoted (lit "2024-04-03T10:00:00")
         (open_below [[lit "out"]]) [lit "out"] sample_world
       = (Ok tt, w')
       /\ conversion_log w' = []
       /\ files w' !! [lit "out"; lit "encoding-conversions.log"]
          = Some ([10%N] ++ lit "=== Conversion Log [2024-04-03T10:00:00] ==="
                    ++ [10%N]
                    ++ lit "  [clue Cryptic, Wednesday, April 03, 2024] ' a' "
                    ++ [8594%N] ++ lit " 'a'" ++ [10%N]).
Proof.
  split.
  - apply (proj1 (flush_conversion_log quoted (lit "2024-04-03T10:00:00")
                    (open_below [[lit "out"]]) [lit "out"]
                    (mkWorld [] ∅ []))).
    reflexivity.
  - destruct (proj1 (proj2 (flush_conversion_log quoted
                              (lit "2024-04-03T10:00:00")
                              (open_below [[lit "out"]]) [lit "out"]
                              sample_world)))
      as (w' & Hflush & Hfiles & _ & Hlog & _).
    + discriminate.
    + reflexivity.
    + exists w'. split; [exact Hflush|]. split; [exact Hlog|].
      rewrite Hfiles. rewrite lookup_insert_eq. reflexivity.
Defined.

(** A run in single-file mode hands the puzzle file itself to
    [_write_conversion_log] (lines 225-227 and 316): the log file would lie
    below a regular file, [open] raises, and the flush of the non-empty
    [conversion_log] writes nothing and clears nothing. *)
Lemma flush_below_a_file_keeps_the_log :
  conversion_log single_file_world <> []
  /\ _write_conversion_log quoted (lit "2024-04-03T10:00:00")
       (open_below [[lit "out"]]) [lit "out"; lit "today.puz"]
       single_file_world
     = (Raise OSError, single_file_world).
Proof.
  split; [discriminate|].
  unfold _write_conversion_log, single_file_world, open_below.
  cbn [conversion_log files].
  change (removelast ([lit "out"; lit "today.puz"]
                        ++ [lit "encoding-conversions.log"]))
    with [lit "out"; lit "today.puz"].
  now rewrite lookup_singleton_eq.
Qed.

(** *** Reversing the escaping *)

Section UnicodeEscapeFacts.

Variable ucd_lookup : bytes -> option N.

Local Abbreviation decode_loop' := (decode_loop ucd_lookup).

Lemma read_octal_length first s :
  (List.length (snd (read_octal first s)) <= List.length s)%nat.
Proof.
  unfold read_octal. destruct s as [|b1 [|b2 r2]]; cbn; [lia| |].
  - destruct (is_octal b1); cbn; lia.
  - destruct (is_octal b1); [destruct (is_octal b2)|]; cbn; lia.
Qed.

Lemma read_hex_length count acc s v rest :
  read_hex count acc s = Some (v, rest) ->
  (List.length rest <= List.length s)%nat.
Proof.
  revert acc s. induction count as [|k IH]; intros acc s H; cbn in H.
  - injection H as _ ->. lia.
  - destruct s as [|b s]; [discriminate|].
    destruct (hex_value b); [|discriminate].
    apply IH in H. cbn. lia.
Qed.

Lemma read_name_length s name rest :
  read_name s = Some (name, rest) ->
  (List.length rest <= List.length s)%nat.
Proof.
  revert name rest. induction s as [|b s IH]; intros name rest H; cbn in H;
    [discriminate|].
  destruct (b =? 125)%N.
  - injection H as _ ->. cbn. lia.
  - destruct (read_name s) as [[n r]|]; [|discriminate].
    injection H as _ ->. specialize (IH _ _ eq_refl). cbn. lia.
Qed.

Lemma prepend_is_Some chars r :
  (exists x, r = Some x) -> exists x, prepend chars r = Some x.
Proof. intros [[out|e] ->]; cbn; eauto. Qed.

(** The decoder never runs out of turns: every turn consumes a byte. *)
Lemma decode_loop_enough_fuel fuel s :
  (List.length s <= fuel)%nat -> exists r, decode_loop' fuel s = Some r.
Proof.
  revert s. induction fuel as [|fuel IH]; intros s Hlen.
  - destruct s; [cbn; eauto|cbn in Hlen; lia].
  - destruct s as [|c s1]; [cbn; eauto|]. cbn in Hlen.
    assert (Hemit : forall chars rest,
               (List.length rest <= List.length s1)%nat ->
               exists r, prepend chars (decode_loop' fuel rest) = Some r).
    { intros chars rest Hrest. apply prepend_is_Some, IH. lia. }
    cbn [decode_loop].
    destruct (negb (c =? 92)%N); [now apply Hemit|].
    destruct s1 as [|e s2]; [eauto|].
    assert (Hemit2 : forall chars rest,
               (List.length rest <= List.length s2)%nat ->
               exists r, prepend chars (decode_loop' fuel rest) = Some r).
    { intros chars rest Hrest. apply Hemit. cbn. lia. }
    repeat match goal with
           | |- context [if (e =? ?k)%N then prepend _ _ else _] =>
               destruct (e =? k)%N; [now apply Hemit2|]
           end.
    destruct (is_octal e).
    { pose proof (read_octal_length e s2) as Ho.
      destruct (read_octal e s2) as [ch rest]. now apply Hemit2. }
    destruct ((e =? 120)%N || (e =? 117)%N || (e =? 85)%N).
    { destruct (read_hex _ 0 s2) as [[ch rest]|] eqn:Eh; [|eauto].
      apply read_hex_length in Eh.
      destruct (1114111 <? ch)%N; [eauto|now apply Hemit2]. }
    destruct (e =? 78)%N; [|now apply Hemit2].
    destruct s2 as [|b s3]; [eauto|].
    destruct (b =? 123)%N; [|eauto].
    destruct (read_name s3) as [[[|n name] rest]|] eqn:En; [eauto| |eauto].
    apply read_name_length in En.
    destruct (ucd_lookup (n :: name)); [|eauto].
    apply Hemit2. cbn. lia.
Qed.

(** [decode_unicode_escape] returns what the loop returns. *)
Lemma decode_unicode_escape_loop s :
  decode_loop' (List.length s) s = Some (decode_unicode_escape ucd_lookup s).
Proof.
  unfold decode_unicode_escape.
  destruct (decode_loop_enough_fuel (List.length s) s) as [r ->]; auto.
Qed.

Lemma decode_plain fuel c rest :
  (c =? 92)%N = false ->
  decode_loop' (S fuel) (c :: rest) = prepend [c] (decode_loop' fuel rest).
Proof. intros H. cbn [decode_loop]. now rewrite H. Qed.

Lemma decode_quote fuel rest :
  decode_loop' (S fuel) (92 :: 34 :: rest)%N
  = prepend [34%N] (decode_loop' fuel rest).
Proof. reflexivity. Qed.

Lemma decode_backslash fuel rest :
  decode_loop' (S fuel) (92 :: 92 :: rest)%N
  = prepend [92%N] (decode_loop' fuel rest).
Proof. reflexivity. Qed.

Lemma decode_u fuel rest :
  decode_loop' (S fuel) (92 :: 117 :: rest)%N
  = match read_hex 4 0 rest with
    | Some (ch, r) =>
        if (1114111 <? ch)%N then Some (Raise UnicodeDecodeError)
        else prepend [ch] (decode_loop' fuel r)
    | None => Some (Raise UnicodeDecodeError)
    end.
Proof. reflexivity. Qed.

Lemma hex_value_hex_digit v :
  (v < 16)%N -> hex_value (hex_digit v) = Some v.
Proof.
  intros H. destruct v as [|p]; [reflexivity|].
  do 5 (try destruct p as [p|p|]); try reflexivity; lia.
Qed.

Lemma hex_digit_ascii v : (v < 16)%N -> (hex_digit v < 128)%N.
Proof. unfold hex_digit. intros H. destruct (v <? 10)%N; lia. Qed.

Lemma read_hex4 c rest :
  (c < 65536)%N -> read_hex 4 0 (hex4 c ++ rest) = Some (c, rest).
Proof.
  intros H. unfold hex4. cbn [app read_hex].
  rewrite !hex_value_hex_digit by (apply N.mod_lt; discriminate).
  do 2 f_equal.
  replace (c / 256)%N with (c / 16 / 16)%N
    by (now rewrite N.Div0.div_div).
  replace (c / 4096)%N with (c / 16 / 16 / 16)%N
    by (now rewrite !N.Div0.div_div).
  zify. Z.to_euclidean_division_equations. lia.
Qed.

Lemma js_escape_char_ascii escaped c :
  survives escaped c -> is_ascii (js_escape_char escaped c).
Proof.
  intros [Hlt Hlit]. unfold js_escape_char, is_ascii.
  destruct (c =? 34)%N; [repeat constructor|].
  destruct (c =? 92)%N; [repeat constructor|].
  destruct (escaped c).
  - unfold u_escape. rewrite (proj2 (N.ltb_lt _ _) Hlt).
    repeat constructor; apply hex_digit_ascii, N.mod_lt; discriminate.
  - constructor; [now apply Hlit|constructor].
Qed.

Lemma js_escape_ascii escaped J :
  Forall (survives escaped) J -> is_ascii (js_escape escaped J).
Proof.
  unfold js_escape, is_ascii. induction 1 as [|c J Hc _ IH]; cbn;
    [constructor|].
  apply Forall_app. split; [now apply js_escape_char_ascii|exact IH].
Qed.

Lemma utf8_encode_ascii s : is_ascii s -> utf8_encode s = Ok s.
Proof.
  induction 1 as [|c s Hc _ IH]; [reflexivity|]. cbn [utf8_encode].
  unfold utf8_encode_char. rewrite (proj2 (N.ltb_lt _ _) Hc).
  cbn [bind]. rewrite IH. reflexivity.
Qed.

Lemma decode_js_escape escaped J :
  Forall (survives escaped) J ->
  forall fuel,
    (List.length (js_escape escaped J) <= fuel)%nat ->
    decode_loop' fuel (js_escape escaped J) = Some (Ok J).
Proof.
  induction 1 as [|c J [Hlt Hlit] _ IH]; intros fuel Hfuel;
    [destruct fuel; reflexivity|].
  change (js_escape escaped (c :: J))
    with (js_escape_char escaped c ++ js_escape escaped J) in *.
  rewrite length_app in Hfuel.
  set (rest := js_escape escaped J) in *.
  unfold js_escape_char in *.
  destruct (c =? 34)%N eqn:Equote.
  { apply N.eqb_eq in Equote. subst c. cbn [List.length] in Hfuel.
    destruct fuel as [|fuel]; [lia|]. cbn [app].
    rewrite decode_quote, IH by lia. reflexivity. }
  destruct (c =? 92)%N eqn:Eback.
  { apply N.eqb_eq in Eback. subst c. cbn [List.length] in Hfuel.
    destruct fuel as [|fuel]; [lia|]. cbn [app].
    rewrite decode_backslash, IH by lia. reflexivity. }
  destruct (escaped c).
  - unfold u_escape in *. rewrite (proj2 (N.ltb_lt _ _) Hlt) in *.
    unfold hex4 in Hfuel. cbn [app List.length] in Hfuel.
    destruct fuel as [|fuel]; [lia|].
    rewrite <- app_assoc. cbn [app].
    rewrite decode_u, read_hex4 by exact Hlt.
    replace (1114111 <? c)%N with false by (symmetry; apply N.ltb_ge; lia).
    rewrite IH by lia. reflexivity.
  - cbn [List.length] in Hfuel. destruct fuel as [|fuel]; [lia|]. cbn [app].
    rewrite decode_plain, IH by (assumption || lia). reflexivity.
Qed.

(** On a document whose characters all [survive], line 113 undoes the
    escaping. *)
Lemma unescape_js_escape escaped J :
  Forall (survives escaped) J ->
  unescape ucd_lookup (js_escape escaped J) = Ok J.
Proof.
  intros H. unfold unescape.
  rewrite utf8_encode_ascii by now apply js_escape_ascii.
  cbn [bind]. unfold decode_unicode_escape.
  now rewrite decode_js_escape.
Qed.

(** C2. The JSON document of one string holding the letter e with an
    acute accent (U+00E9), left literal by the escaping: the escaped text
    is backslash, quote, U+00E9, backslash, quote, and line 113 turns it
    into quote, U+00C3, U+00A9, quote, the two UTF-8 bytes of the letter
    read as two characters.  The document is not recovered. *)
Theorem unescape_mangles_literal_non_ascii :
  js_escape (fun _ => false) [34; 233; 34]%N = [92; 34; 233; 92; 34]%N
  /\ unescape ucd_lookup (js_escape (fun _ => false) [34; 233; 34]%N)
     = Ok [34; 195; 169; 34]%N
  /\ unescape ucd_lookup (js_escape (fun _ => false) [34; 233; 34]%N)
     <> Ok [34; 233; 34]%N.
Proof.
  split; [reflexivity|]. split; [reflexivity|]. discriminate.
Qed.

End UnicodeEscapeFacts.

(** *** More on the builder *)

Section BuilderFacts.

Variables (html2text demojize unidecode : str -> str).

Local Abbreviation sanitize' :=
  (_sanitize_for_latin1 html2text demojize unidecode).
Local Abbreviation sanitize_each' :=
  (sanitize_each html2text demojize unidecode).
Local Abbreviation build := (to_puzzle html2text demojize unidecode).

Lemma sanitize_log text context log :
  exists added,
    snd (sanitize' text context log) = log ++ added
    /\ (List.length added <= 1)%nat
    /\ Forall (changed_with context) added.
Proof.
  unfold _sanitize_for_latin1.
  destruct text as [[|c t]|];
    try (exists []; rewrite app_nil_r; cbn; repeat split; (lia || constructor)).
  destruct (bool_decide_reflect
              (sanitized_text html2text demojize unidecode (c :: t) <> c :: t))
    as [Hne|Heq].
  - eexists [_]. cbn. repeat split; [lia|].
    constructor; [|constructor]. cbn. split; [congruence|reflexivity].
  - exists []. rewrite app_nil_r. cbn. repeat split; (lia || constructor).
Qed.

Lemma sanitize_each_log texts context log :
  exists added,
    snd (sanitize_each' texts context log) = log ++ added
    /\ (List.length added <= List.length texts)%nat
    /\ Forall (changed_with context) added.
Proof.
  revert log. induction texts as [|t texts IH]; intros log.
  - exists []. rewrite app_nil_r. cbn. repeat split; (lia || constructor).
  - cbn [sanitize_each].
    destruct (sanitize_log (Some t) context log) as (a1 & H1 & L1 & F1).
    destruct (sanitize' (Some t) context log) as [v log1]. cbn [snd] in H1.
    destruct (IH log1) as (a2 & H2 & L2 & F2).
    destruct (sanitize_each' texts context log1) as [vs log2].
    cbn [snd] in *. exists (a1 ++ a2). subst log1 log2.
    rewrite app_assoc, length_app. repeat split; [cbn; lia|].
    apply Forall_app. now split.
Qed.

(** All that a successful build computes. *)
Lemma to_puzzle_Ok_fields self log p log' :
  build self log = (Ok p, log') ->
  exists data row0 rows,
    crossword_data self = Some (Some data)
    /\ r_type data = upper (value (crossword_type self))
    /\ grid data = row0 :: rows
    /\ let title :=
         capitalize (r_type data) ++ lit ", " ++ strftime_readable (cw_date self)
       in
       let solution := List.concat (List.map (@List.concat N) (grid data)) in
       let cl :=
         sanitize_each' (List.map question
                           (sorted position (across data ++ down data)))
                        (lit "clue " ++ title) log in
       let joined :=
         join [10%N]
              (List.filter (fun s => negb (str_eqb s []))
                 [default [] (specialInstructions data);
                  default [] (summary data)]) in
       let nt :=
         sanitize' (match joined with [] => None | _ => Some joined end)
                   (lit "notes " ++ title) (snd cl) in
       p = mkPuzzle (lit "The Sydney Morning Herald") title
                    (lit "Created by " ++ r_author data)
                    (List.length row0) (List.length (grid data)) solution
                    (List.map (fun c => if (c =? 46)%N then c else 45%N)
                              solution)
                    (fst cl) (fst nt)
       /\ log' = snd nt.
Proof.
  unfold to_puzzle. intros H.
  destruct (crossword_data self) as [[data|]|]; try discriminate.
  destruct (str_eqb (r_date data) _) eqn:Hd; cbn [negb] in H;
    try discriminate.
  destruct (str_eqb (upper _) (r_type data)) eqn:Ht; cbn [negb] in H;
    try discriminate.
  destruct (grid data) as [|row0 rows] eqn:Hg; try discriminate.
  exists data, row0, rows. apply str_eqb_eq in Ht.
  split; [reflexivity|]. split; [congruence|]. split; [exact Hg|].
  cbv zeta. rewrite Hg.
  destruct (sanitize_each _ _ _ _ _ _) as [cl log1].
  destruct (_sanitize_for_latin1 _ _ _ _ _ _) as [nt log2].
  cbn [fst snd]. split; congruence.
Qed.

(** X1. In a built puzzle the fill mask has one character per character of
    the solution: a full stop where the solution has a full stop (a block
    cell), a hyphen everywhere else. *)
Theorem fill_masks_solution self log p log' :
  to_puzzle html2text demojize unidecode self log = (Ok p, log') ->
  List.length (fill p) = List.length (solution p)
  /\ Forall2 (fun s f => (s = 46%N /\ f = 46%N) \/ (s <> 46%N /\ f = 45%N))
             (solution p) (fill p).
Proof.
  intros H. apply to_puzzle_Ok_fields in H as (data & row0 & rows & H).
  destruct H as (_ & _ & _ & H). cbv zeta in H. destruct H as [-> _].
  cbn [fill solution]. split; [apply length_map|].
  induction (List.concat _) as [|c s IH]; cbn; constructor; [|exact IH].
  destruct (c =? 46)%N eqn:E.
  - apply N.eqb_eq in E. now left.
  - apply N.eqb_neq in E. now right.
Qed.

(** X3. A successful build keeps every record already in the conversion
    log and appends at most one record per clue and one for the notes; each
    appended record has a sanitized text different from its original and
    carries the context of the clues or of the notes of this puzzle. *)
Theorem to_puzzle_extends_log self log p log' :
  build self log = (Ok p, log') ->
  exists added,
    log' = log ++ added
    /\ (List.length added <= List.length (clues p) + 1)%nat
    /\ Forall (fun rec => changed_with (lit "clue " ++ title p) rec
                          \/ changed_with (lit "notes " ++ title p) rec)
              added.
Proof.
  intros H. apply to_puzzle_Ok_fields in H as (data & row0 & rows & H).
  destruct H as (_ & _ & _ & H). cbv zeta in H. destruct H as [-> ->].
  cbn [clues title].
  match goal with
  | |- context [sanitize_each' ?texts ?ctx log] =>
      destruct (sanitize_each_log texts ctx log) as (a1 & H1 & L1 & F1);
      pose proof (sanitize_each_values html2text demojize unidecode
                    texts ctx log) as Hv;
      destruct (sanitize_each' texts ctx log) as [cl log1]
  end.
  cbn [fst snd] in *. subst log1.
  match goal with
  | |- context [sanitize' ?text ?ctx ?l] =>
      destruct (sanitize_log text ctx l) as (a2 & H2 & L2 & F2)
  end.
  exists (a1 ++ a2). rewrite H2, app_assoc, length_app.
  split; [reflexivity|]. split.
  - rewrite Hv, !length_map in *. lia.
  - apply Forall_app. split; (eapply Forall_impl; [eassumption|]); cbn; auto.
Qed.

(** X4. A built puzzle has one clue per clue record: as many as the across
    and the down lists hold together. *)
Theorem clue_count self log p log' :
  to_puzzle html2text demojize unidecode self log = (Ok p, log') ->
  exists data,
    crossword_data self = Some (Some data)
    /\ List.length (clues p)
       = (List.length (across data) + List.length (down data))%nat.
Proof.
  intros H. apply to_puzzle_Ok_fields in H as (data & row0 & rows & H).
  destruct H as (Hdata & _ & _ & H). cbv zeta in H. destruct H as [-> _].
  exists data. split; [exact Hdata|]. cbn [clues].
  rewrite sanitize_each_values, !length_map.
  rewrite (Permutation_length (sorted_perm position _)).
  apply length_app.
Qed.

(** X5. The notes of a built puzzle: none when [specialInstructions] and
    [summary] are both absent or empty; the sanitized text of the one that
    is present; and when both are present, the sanitized text of the two
    joined by a newline, sanitized as one text. *)
Theorem notes_joined self log p log' :
  build self log = (Ok p, log') ->
  exists data,
    crossword_data self = Some (Some data)
    /\ notes p
       = match default [] (specialInstructions data),
               default [] (summary data) with
         | [], [] => None
         | a, [] => Some (sanitized_text html2text demojize unidecode a)
         | [], b => Some (sanitized_text html2text demojize unidecode b)
         | a, b =>
             Some (sanitized_text html2text demojize unidecode
                     (a ++ [10%N] ++ b))
         end.
Proof.
  intros H. apply to_puzzle_Ok_fields in H as (data & row0 & rows & H).
  destruct H as (Hdata & _ & _ & H). cbv zeta in H. destruct H as [-> _].
  exists data. split; [exact Hdata|]. cbn [notes].
  assert (Hne : forall c (s : str), str_eqb (c :: s) [] = false)
    by (intros; now apply str_eqb_neq).
  destruct (default [] (specialInstructions data)) as [|a sa],
           (default [] (summary data)) as [|b sb];
    cbn [List.filter]; rewrite ?Hne, ?(proj2 (str_eqb_eq [] []) eq_refl);
    cbn [negb join app]; try reflexivity;
    unfold _sanitize_for_latin1; now destruct (bool_decide _).
Qed.

(** X6. The header of a built puzzle does not depend on the grid or the
    clues: the copyright is the fixed string, the author is the record's
    author after [Created by], and the title is the name of the requested
    type with an initial capital, a comma and the date written out. *)
Theorem puzzle_header self log p log' :
  build self log = (Ok p, log') ->
  exists data,
    crossword_data self = Some (Some data)
    /\ copyright p = lit "The Sydney Morning Herald"
    /\ author p = lit "Created by " ++ r_author data
    /\ title p
       = match crossword_type self with
         | CRYPTIC => lit "Cryptic"
         | MINI => lit "Mini"
         | QUICK => lit "Quick"
         end ++ lit ", " ++ strftime_readable (cw_date self).
Proof.
  intros H. apply to_puzzle_Ok_fields in H as (data & row0 & rows & H).
  destruct H as (Hdata & Ht & _ & H). cbv zeta in H. destruct H as [-> _].
  exists data. split; [exact Hdata|]. cbn [copyright author title].
  rewrite Ht. repeat split. now destruct (crossword_type self).
Qed.

End BuilderFacts.

Example noted_puzzle_built :
  to_puzzle html2text_plain leave_as_is leave_as_is noted_crossword []
  = (Ok noted_puzzle, noted_log).
Proof. vm_compute. reflexivity. Qed.

Lemma fill_masks_solution_witness :
  List.length (fill noted_puzzle) = List.length (solution noted_puzzle)
  /\ Forall2 (fun s f => (s = 46%N /\ f = 46%N) \/ (s <> 46%N /\ f = 45%N))
             (solution noted_puzzle) (fill noted_puzzle).
Proof.
  apply (fill_masks_solution html2text_plain leave_as_is leave_as_is
           noted_crossword [] noted_puzzle noted_log).
  vm_compute. reflexivity.
Defined.

Lemma to_puzzle_extends_log_witness :
  exists added,
    noted_log = [] ++ added
    /\ (List.length added <= List.length (clues noted_puzzle) + 1)%nat
    /\ Forall (fun rec =>
                 changed_with (lit "clue " ++ title noted_puzzle) rec
                 \/ changed_with (lit "notes " ++ title noted_puzzle) rec)
              added.
Proof.
  apply (to_puzzle_extends_log html2text_plain leave_as_is leave_as_is
           noted_crossword [] noted_puzzle noted_log).
  vm_compute. reflexivity.
Defined.

Lemma clue_count_witness :
  exists data,
    crossword_data noted_crossword = Some (Some data)
    /\ List.length (clues noted_puzzle)
       = (List.length (across data) + List.length (down data))%nat.
Proof.
  apply (clue_count html2text_plain leave_as_is leave_as_is
           noted_crossword [] noted_puzzle noted_log).
  vm_compute. reflexivity.
Defined.

Lemma notes_joined_witness :
  exists data,
    crossword_data noted_crossword = Some (Some data)
    /\ notes noted_puzzle
       = match default [] (specialInstructions data),
               default [] (summary data) with
         | [], [] => None
         | a, [] => Some (sanitized_text html2text_plain leave_as_is
                            leave_as_is a)
         | [], b => Some (sanitized_text html2text_plain leave_as_is
                            leave_as_is b)
         | a, b =>
             Some (sanitized_text html2text_plain leave_as_is leave_as_is
                     (a ++ [10%N] ++ b))
         end.
Proof.
  apply (notes_joined html2text_plain leave_as_is leave_as_is
           noted_crossword [] noted_puzzle noted_log).
  vm_compute. reflexivity.
Defined.

Lemma puzzle_header_witness :
  exists data,
    crossword_data noted_crossword = Some (Some data)
    /\ copyright noted_puzzle = lit "The Sydney Morning Herald"
    /\ author noted_puzzle = lit "Created by " ++ r_author data
    /\ title noted_puzzle
       = lit "Cryptic" ++ lit ", " ++ strftime_readable (date_of_ymd 2024 4 3).
Proof.
  apply (puzzle_header html2text_plain leave_as_is leave_as_is
           noted_crossword [] noted_puzzle noted_log).
  vm_compute. reflexivity.
Defined.

(** *** More on the extraction *)

Lemma starts_with_app pat s : starts_with pat (pat ++ s) = true.
Proof.
  induction pat as [|p pat IH]; [reflexivity|]. cbn.
  now rewrite N.eqb_refl, IH.
Qed.

Lemma starts_with_split pat s :
  starts_with pat s = true -> exists rest, s = pat ++ rest.
Proof.
  revert s. induction pat as [|p pat IH]; intros s H; [now exists s|].
  destruct s as [|c s]; [discriminate|]. cbn in H.
  apply andb_prop in H as [Hc H]. apply N.eqb_eq in Hc. subst c.
  destruct (IH s H) as [rest ->]. now exists rest.
Qed.

Lemma until_newline_prefix s : exists rest, s = until_newline s ++ rest.
Proof.
  induction s as [|c s [rest IH]]; [now exists []|]. cbn.
  destruct (c =? 10)%N; [now exists (c :: s)|].
  exists rest. cbn. now rewrite <- IH.
Qed.

Lemma until_newline_no_newline s : ~ In 10%N (until_newline s).
Proof.
  induction s as [|c s IH]; cbn; [tauto|].
  destruct (c =? 10)%N eqn:E; cbn; [tauto|].
  apply N.eqb_neq in E. intros [H|H]; [congruence|tauto].
Qed.

Lemma until_newline_app a b :
  ~ In 10%N a -> until_newline (a ++ b) = a ++ until_newline b.
Proof.
  induction a as [|c a IH]; intros H; [reflexivity|]. cbn.
  destruct (c =? 10)%N eqn:E.
  - apply N.eqb_eq in E. exfalso. apply H. now left.
  - rewrite IH; [reflexivity|]. intros Hin. apply H. now right.
Qed.

Lemma greedy_group_sound line g :
  greedy_group line = Some g ->
  g <> [] /\ exists rest, line = g ++ state_suffix ++ rest.
Proof.
  revert g. induction line as [|c line IH]; intros g H; [discriminate|].
  cbn [greedy_group] in H.
  destruct (greedy_group line) as [g'|].
  - injection H as <-. destruct (IH g' eq_refl) as [_ [rest ->]].
    split; [discriminate|]. now exists rest.
  - destruct (starts_with state_suffix line) eqn:E; [|discriminate].
    injection H as <-. apply starts_with_split in E as [rest ->].
    split; [discriminate|]. now exists rest.
Qed.

Lemma greedy_group_finds g rest :
  g <> [] -> exists g', greedy_group (g ++ state_suffix ++ rest) = Some g'.
Proof.
  induction g as [|c g IH]; intros Hne; [congruence|].
  cbn [app greedy_group]. destruct g as [|c' g].
  - cbn [app]. destruct (greedy_group (state_suffix ++ rest)); [eauto|].
    rewrite starts_with_app. eauto.
  - destruct IH as [g' ->]; [discriminate|]. eauto.
Qed.

(** At the end of a line the greedy group is everything before the final
    suffix. *)
Lemma greedy_group_exact g :
  g <> [] -> greedy_group (g ++ state_suffix) = Some g.
Proof.
  induction g as [|c g IH]; intros Hne; [congruence|].
  cbn [app greedy_group]. destruct g as [|c' g].
  - reflexivity.
  - now rewrite IH.
Qed.

Lemma re_search_group_here x g :
  greedy_group (until_newline x) = Some g ->
  re_search_group (state_prefix ++ x) = Some g.
Proof.
  intros H.
  change (state_prefix ++ x) with (119%N :: (List.tl state_prefix ++ x)).
  cbn [re_search_group].
  change (119%N :: (List.tl state_prefix ++ x)) with (state_prefix ++ x).
  rewrite starts_with_app, skipn_app, Nat.sub_diag, skipn_all.
  cbn [app]. change (skipn 0 x) with x. now rewrite H.
Qed.

Lemma re_search_group_cons c text :
  re_search_group (c :: text)
  = match (if starts_with state_prefix (c :: text)
           then greedy_group
                  (until_newline (skipn (List.length state_prefix) (c :: text)))
           else None) with
    | Some g => Some g
    | None => re_search_group text
    end.
Proof. reflexivity. Qed.

Lemma state_suffix_no_newline : ~ In 10%N state_suffix.
Proof. cbn. intros [H|[H|[H|[]]]]; discriminate. Qed.

(** X7. What the pattern finds.  A group that is found is not empty, holds
    no newline and stands in the text between the fixed prefix and the fixed
    suffix; and whenever the text holds the prefix, a non-empty group
    without newline and the suffix, in this order and next to each other,
    a group is found. *)
Theorem re_search_group_matches text :
  (forall g,
     re_search_group text = Some g ->
     g <> [] /\ ~ In 10%N g
     /\ exists pre post, text = pre ++ state_prefix ++ g ++ state_suffix ++ post)
  /\ (forall pre g post,
        text = pre ++ state_prefix ++ g ++ state_suffix ++ post ->
        g <> [] -> ~ In 10%N g ->
        exists g', re_search_group text = Some g').
Proof.
  split.
  - induction text as [|c text IH]; intros g H; [discriminate|].
    rewrite re_search_group_cons in H.
    destruct (starts_with state_prefix (c :: text)) eqn:Es.
    + apply starts_with_split in Es as [x Ex]. rewrite Ex in H.
      rewrite skipn_app, Nat.sub_diag, skipn_all in H. cbn [app] in H.
      change (skipn 0 x) with x in H.
      destruct (greedy_group (until_newline x)) as [g0|] eqn:Eg.
      * injection H as ->.
        apply greedy_group_sound in Eg as [Hne [r Hr]].
        destruct (until_newline_prefix x) as [rest Hx].
        split; [exact Hne|]. split.
        { intros Hin. apply (until_newline_no_newline x). rewrite Hr.
          apply in_or_app. now left. }
        exists [], (r ++ rest). rewrite Ex, Hx, Hr. cbn [app].
        now rewrite <- !app_assoc.
      * destruct (IH g H) as (Hne & Hnl & pre & post & ->).
        split; [exact Hne|]. split; [exact Hnl|]. now exists (c :: pre), post.
    + destruct (IH g H) as (Hne & Hnl & pre & post & ->).
      split; [exact Hne|]. split; [exact Hnl|]. now exists (c :: pre), post.
  - intros pre g post -> Hne Hnl. induction pre as [|c pre IH].
    + cbn [app].
      destruct (greedy_group_finds g (until_newline post) Hne) as [g' Hg].
      exists g'. apply re_search_group_here.
      rewrite until_newline_app by exact Hnl.
      rewrite until_newline_app by exact state_suffix_no_newline.
      exact Hg.
    + cbn [app]. rewrite re_search_group_cons.
      destruct (if starts_with state_prefix _ then _ else _); eauto.
Qed.

Section ExtractionFacts.

Variable script_strings : bytes -> list (option str).
Variable loads_crossword : str -> result (option RawCrosswordRecord).
Variable ucd_lookup : bytes -> option N.

Local Abbreviation extract :=
  (extract_crossword script_strings loads_crossword ucd_lookup).
Local Abbreviation scan := (scan_scripts loads_crossword ucd_lookup).

Lemma scan_passed_over pre rest :
  Forall passed_over pre -> scan (pre ++ rest) = scan rest.
Proof.
  induction 1 as [|script pre Hs _ IH]; [reflexivity|].
  cbn [app scan_scripts]. destruct script as [[|c text]|]; try exact IH.
  unfold passed_over in Hs. now rewrite Hs.
Qed.

Lemma first_scan pre text post g :
  Forall passed_over pre ->
  re_search_group text = Some g ->
  scan (pre ++ Some text :: post)
  = (do json_string <- unescape ucd_lookup g; loads_crossword json_string).
Proof.
  intros Hpre Hg. rewrite scan_passed_over by exact Hpre.
  destruct text as [|c text]; [discriminate|].
  cbn [scan_scripts]. now rewrite Hg.
Qed.

(** X8. The first script element in which the pattern is found decides:
    its group is unescaped and handed to the JSON reader, and the outcome of
    that, also an exception, is the outcome of the scan.  The script
    elements after it are never looked at. *)
Theorem first_matching_script_decides pre text post g :
  Forall passed_over pre ->
  re_search_group text = Some g ->
  scan (pre ++ Some text :: post)
  = (do json_string <- unescape ucd_lookup g; loads_crossword json_string).
Proof.
  intros Hpre Hg. now apply first_scan.
Qed.

(** X9. A successful response with a body in which no script element
    matches raises [RuntimeError] (crossword data not found) and leaves
    the object as it was, response included. *)
Theorem extract_without_match self resp :
  response self = Some resp ->
  status_ok resp = true ->
  content resp <> [] ->
  Forall passed_over (script_strings (content resp)) ->
  extract self = (Raise (RuntimeError not_found_message), self).
Proof.
  intros Hresp Hok Hcontent Hnone. unfold extract_crossword.
  rewrite Hresp, Hok. cbn [negb].
  destruct (content resp) as [|b body] eqn:E; [congruence|].
  rewrite <- (app_nil_r (script_strings _)).
  rewrite scan_passed_over by exact Hnone. reflexivity.
Qed.

(** X10. After a call of [extract_crossword] that returns normally the
    object has no response any more and holds the extracted data, with type
    and date untouched; another call raises [AttributeError] and changes
    nothing. *)
Theorem extract_only_once self self' :
  extract_crossword script_strings loads_crossword ucd_lookup self = (Ok tt, self') ->
  response self' = None
  /\ crossword_data self' <> None
  /\ crossword_type self' = crossword_type self
  /\ cw_date self' = cw_date self
  /\ extract self' = (Raise AttributeError, self').
Proof.
  unfold extract_crossword. intros H.
  destruct (response self) as [resp|]; [|discriminate].
  destruct (negb (status_ok resp)); [discriminate|].
  destruct (content resp); [discriminate|].
  destruct (scan_scripts _ _ _) as [data|e]; [|discriminate].
  injection H as <-. cbn. repeat split. discriminate.
Qed.

Lemma hex_digit_no_newline v : hex_digit v <> 10%N.
Proof. unfold hex_digit. destruct (v <? 10)%N; lia. Qed.

Lemma js_escape_no_newline escaped J :
  Forall (page_safe escaped) J -> ~ In 10%N (js_escape escaped J).
Proof.
  unfold js_escape. induction 1 as [|c J [[Hlt _] Hnl] _ IH]; cbn; [tauto|].
  intros Hin. apply in_app_or in Hin as [Hin|Hin]; [|tauto].
  unfold js_escape_char in Hin.
  destruct (c =? 34)%N.
  { cbn in Hin. destruct Hin as [H|[H|[]]]; discriminate. }
  destruct (c =? 92)%N.
  { cbn in Hin. destruct Hin as [H|[H|[]]]; discriminate. }
  destruct (escaped c) eqn:E.
  - unfold u_escape in Hin. rewrite (proj2 (N.ltb_lt _ _) Hlt) in Hin.
    cbn in Hin.
    repeat (destruct Hin as [Hin|Hin];
            [try discriminate; now apply hex_digit_no_newline in Hin|]).
    exact Hin.
  - cbn in Hin. destruct Hin as [Hc|[]]. specialize (Hnl Hc). congruence.
Qed.

Lemma js_escape_nonempty escaped J : J <> [] -> js_escape escaped J <> [].
Proof.
  destruct J as [|c J]; [congruence|]. intros _. unfold js_escape. cbn.
  unfold js_escape_char, u_escape.
  destruct (c =? 34)%N; [discriminate|]. destruct (c =? 92)%N; [discriminate|].
  destruct (escaped c); [|discriminate]. destruct (c <? 65536)%N; discriminate.
Qed.

(** X11. From page to JSON reader.  When the first matching script element
    holds the prefix, the escaped form of a non-empty document whose
    characters are all [page_safe], and the suffix at the end of its line,
    [extract_crossword] hands exactly the document to the JSON reader: it
    stores what the reader returns and drops the response, or raises what the
    reader raises and keeps the object. *)
Theorem extraction_round_trip escaped J tail pre post self resp :
  J <> [] -> Forall (page_safe escaped) J -> line_ends tail ->
  response self = Some resp ->
  status_ok resp = true ->
  content resp <> [] ->
  Forall passed_over pre ->
  script_strings (content resp)
  = pre ++ Some (state_prefix ++ js_escape escaped J ++ state_suffix ++ tail)
        :: post ->
  extract self
  = match loads_crossword J with
    | Ok data =>
        (Ok tt,
         mkCrossword (crossword_type self) (cw_date self) None (Some data))
    | Raise e => (Raise e, self)
    end.
Proof.
  intros Hne Hsafe Htail Hresp Hok Hcontent Hpre Hscripts.
  unfold extract_crossword. rewrite Hresp, Hok. cbn [negb].
  destruct (content resp) as [|b body] eqn:E; [congruence|].
  rewrite Hscripts.
  rewrite (first_scan pre _ post (js_escape escaped J)); [|exact Hpre|].
  - rewrite unescape_js_escape; [reflexivity|].
    eapply Forall_impl; [exact Hsafe|]. now intros c [Hc _].
  - apply re_search_group_here.
    rewrite until_newline_app by now apply js_escape_no_newline.
    rewrite until_newline_app by exact state_suffix_no_newline.
    replace (until_newline tail) with (@nil N).
    + rewrite app_nil_r. now apply greedy_group_exact, js_escape_nonempty.
    + destruct tail as [|c tail]; [reflexivity|]. cbn in Htail. subst c.
      reflexivity.
Qed.

End ExtractionFacts.

Lemma re_search_group_matches_witness :
  exists g,
    re_search_group (lit "var a;" ++ sample_page ++ lit " var b;") = Some g.
Proof.
  apply (proj2 (re_search_group_matches
                  (lit "var a;" ++ sample_page ++ lit " var b;"))
           (lit "var a;") (lit "{}") (lit " var b;")).
  - reflexivity.
  - discriminate.
  - cbn. intros [H|[H|[]]]; discriminate.
Defined.

Lemma first_matching_script_decides_witness :
  scan_scripts reads_accented no_names
    ([None; Some (lit "var a;")] ++ Some accented_page :: [Some sample_page])
  = (do json_string <-
       unescape no_names (js_escape escape_non_ascii accented_document);
     reads_accented json_string).
Proof.
  apply (first_matching_script_decides reads_accented no_names
           [None; Some (lit "var a;")] accented_page [Some sample_page]).
  - repeat constructor.
  - vm_compute. reflexivity.
Defined.

Lemma extract_without_match_witness :
  extract_crossword whole_body_script reads_accented no_names
    (Crossword_init MINI (date_of_ymd 2024 4 3) (mkResponse true plain_page))
  = (Raise (RuntimeError not_found_message),
     Crossword_init MINI (date_of_ymd 2024 4 3) (mkResponse true plain_page)).
Proof.
  apply (extract_without_match whole_body_script reads_accented no_names
           _ (mkResponse true plain_page)).
  - reflexivity.
  - reflexivity.
  - discriminate.
  - constructor; [vm_compute; reflexivity|constructor].
Defined.

Lemma extract_only_once_witness :
  response sample_crossword = None
  /\ crossword_data sample_crossword <> None
  /\ crossword_type sample_crossword = CRYPTIC
  /\ cw_date sample_crossword = date_of_ymd 2024 4 3
  /\ extract_crossword whole_body_script reads_accented no_names
       sample_crossword
     = (Raise AttributeError, sample_crossword).
Proof.
  apply (extract_only_once whole_body_script reads_accented no_names
           (Crossword_init CRYPTIC (date_of_ymd 2024 4 3)
              (mkResponse true accented_page))
           sample_crossword).
  vm_compute. reflexivity.
Defined.

Lemma extraction_round_trip_witness :
  extract_crossword whole_body_script reads_accented no_names
    (Crossword_init CRYPTIC (date_of_ymd 2024 4 3)
       (mkResponse true accented_page))
  = (Ok tt, sample_crossword).
Proof.
  apply (extraction_round_trip whole_body_script reads_accented no_names
           escape_non_ascii accented_document [] [] []
           (Crossword_init CRYPTIC (date_of_ymd 2024 4 3)
              (mkResponse true accented_page))
           (mkResponse true accented_page)).
  - discriminate.
  - unfold page_safe, survives, escape_non_ascii, accented_document.
    repeat constructor; try discriminate;
      try (intros H; apply N.leb_gt in H; exact H).
  - exact I.
  - reflexivity.
  - reflexivity.
  - discriminate.
  - constructor.
  - rewrite app_nil_r. reflexivity.
Defined.

(** *** More on reversing the escaping *)

Lemma utf8_encode_app a b :
  utf8_encode (a ++ b)
  = (do x <- utf8_encode a; do y <- utf8_encode b; Ok (x ++ y)).
Proof.
  induction a as [|c a IH]; cbn [app utf8_encode bind].
  - now destruct (utf8_encode b).
  - rewrite IH. destruct (utf8_encode_char c) as [bc|]; [|reflexivity].
    cbn [bind]. destruct (utf8_encode a) as [x|]; [|reflexivity].
    cbn [bind]. destruct (utf8_encode b) as [y|]; [|reflexivity].
    cbn [bind]. now rewrite app_assoc.
Qed.

(** The bytes of one character: itself when ASCII, otherwise two to four
    bytes, none of them below 128. *)
Lemma utf8_encode_char_bytes c bc :
  utf8_encode_char c = Ok bc ->
  ((c < 128)%N /\ bc = [c])
  \/ ((128 <= c)%N /\ (2 <= List.length bc)%nat
      /\ Forall (fun b => (128 <= b)%N) bc).
Proof.
  unfold utf8_encode_char. intros H.
  destruct (c <? 128)%N eqn:E1.
  { apply N.ltb_lt in E1. left. split; [exact E1|congruence]. }
  apply N.ltb_ge in E1. right. split; [exact E1|].
  assert (Hhigh : forall k x, (128 <= k)%N -> (128 <= k + x)%N)
    by (intros k x Hk; eapply N.le_trans; [exact Hk|apply N.le_add_r]).
  destruct (c <? 2048)%N.
  { injection H as <-. cbn [List.length]. split; [lia|].
    repeat (apply List.Forall_cons; [apply Hhigh; lia|]).
    apply List.Forall_nil. }
  destruct ((55296 <=? c)%N && (c <=? 57343)%N); [discriminate|].
  destruct (c <? 65536)%N; injection H as <-; cbn [List.length];
    (split; [lia|]);
    repeat (apply List.Forall_cons; [apply Hhigh; lia|]);
    apply List.Forall_nil.
Qed.

Section EscapeLaws.

Variable ucd_lookup : bytes -> option N.

Local Abbreviation loop := (decode_loop ucd_lookup).

(** Bytes other than the backslash are taken as characters, one by one. *)
Lemma decode_no_backslash run fuel :
  ~ In 92%N run -> (List.length run <= fuel)%nat -> loop fuel run = Some (Ok run).
Proof.
  revert fuel. induction run as [|c run IH]; intros fuel Hno Hfuel.
  - now destruct fuel.
  - cbn in Hfuel. destruct fuel as [|fuel]; [lia|].
    rewrite decode_plain
      by (apply N.eqb_neq; intros ->; apply Hno; now left).
    rewrite IH; [reflexivity| |lia]. intros Hin. apply Hno. now right.
Qed.

Lemma utf8_encode_keeps_backslash_out s b :
  ~ In 92%N s -> utf8_encode s = Ok b -> ~ In 92%N b.
Proof.
  revert b. induction s as [|c s IH]; intros b Hno H.
  - injection H as <-. tauto.
  - cbn [utf8_encode] in H.
    destruct (utf8_encode_char c) as [bc|] eqn:Ec; [|discriminate].
    destruct (utf8_encode s) as [bs|]; [|discriminate].
    cbn [bind] in H. injection H as <-.
    intros Hin. apply in_app_or in Hin as [Hin|Hin].
    + apply utf8_encode_char_bytes in Ec as [[_ ->]|(_ & _ & Hall)].
      * destruct Hin as [Hc|[]]. apply Hno. now left.
      * rewrite List.Forall_forall in Hall. specialize (Hall _ Hin). lia.
    + apply (IH bs); [|reflexivity|exact Hin].
      intros H92. apply Hno. now right.
Qed.

Lemma utf8_encode_length s b :
  utf8_encode s = Ok b ->
  (List.length s <= List.length b)%nat
  /\ (List.length b = List.length s -> is_ascii s).
Proof.
  revert b. induction s as [|c s IH]; intros b H.
  - injection H as <-. split; [lia|constructor].
  - cbn [utf8_encode] in H.
    destruct (utf8_encode_char c) as [bc|] eqn:Ec; [|discriminate].
    destruct (utf8_encode s) as [bs|]; [|discriminate].
    cbn [bind] in H. injection H as <-.
    destruct (IH bs eq_refl) as [Hle Heq]. rewrite length_app. cbn.
    apply utf8_encode_char_bytes in Ec as [[Hc ->]|(_ & Hlen & _)].
    + cbn. split; [lia|]. intros Hl. constructor; [exact Hc|].
      apply Heq. lia.
    + split; lia.
Qed.

(** X12. Captured text without a backslash goes through line 113 as the
    bytes of its UTF-8 encoding, each byte read as one character.  The text
    comes back unchanged exactly when all its characters are ASCII. *)
Theorem unescape_without_backslash s b :
  ~ In 92%N s ->
  utf8_encode s = Ok b ->
  unescape ucd_lookup s = Ok b /\ (b = s <-> is_ascii s).
Proof.
  intros Hno Hb. split.
  - unfold unescape. rewrite Hb. cbn [bind]. unfold decode_unicode_escape.
    rewrite decode_no_backslash; [reflexivity| |lia].
    now apply (utf8_encode_keeps_backslash_out s).
  - split.
    + intros ->. now apply (utf8_encode_length s s).
    + intros Ha. rewrite utf8_encode_ascii in Hb by exact Ha. congruence.
Qed.

Lemma prepend_nil r : prepend [] r = r.
Proof. now destruct r as [[out|e]|]. Qed.

Lemma prepend_app a b r : prepend a (prepend b r) = prepend (a ++ b) r.
Proof. destruct r as [[out|e]|]; cbn; [|reflexivity..]. now rewrite app_assoc. Qed.

Lemma decode_run run rest fuel :
  ~ In 92%N run ->
  loop (List.length run + fuel) (run ++ rest) = prepend run (loop fuel rest).
Proof.
  induction run as [|c run IH]; intros Hno.
  - cbn. now rewrite prepend_nil.
  - cbn [List.length Nat.add app].
    rewrite decode_plain
      by (apply N.eqb_neq; intros ->; apply Hno; now left).
    rewrite IH by (intros Hin; apply Hno; now right).
    now rewrite prepend_app.
Qed.

Lemma hex4_ascii c : is_ascii (hex4 c).
Proof.
  unfold hex4, is_ascii.
  repeat (apply List.Forall_cons;
          [apply hex_digit_ascii, N.mod_lt; discriminate|]).
  apply List.Forall_nil.
Qed.

Lemma decode_u_unit c rest fuel :
  (c < 65536)%N ->
  loop (S fuel) (92%N :: 117%N :: hex4 c ++ rest) = prepend [c] (loop fuel rest).
Proof.
  intros Hc. rewrite (decode_u ucd_lookup).
  rewrite (read_hex4 ucd_lookup) by exact Hc.
  now replace (1114111 <? c)%N with false by (symmetry; apply N.ltb_ge; lia).
Qed.

Lemma keeps_or_grows_step escaped c J img x :
  (1 <= List.length img)%nat ->
  (List.length img = 1%nat -> survives escaped c) ->
  keeps_or_grows escaped J x ->
  keeps_or_grows escaped (c :: J) (prepend img x).
Proof.
  intros Hlen Hone (r & -> & Hr). destruct r as [out|e]; cbn.
  - eexists. split; [reflexivity|]. intros ? [= <-].
    destruct (Hr out eq_refl) as [Hle Heq]. rewrite length_app. cbn.
    split; [lia|]. intros Hl. constructor; [apply Hone|apply Heq]; lia.
  - eexists. split; [reflexivity|]. discriminate.
Qed.

Lemma decode_escaped escaped J :
  Forall (fun c => (c < 1114112)%N) J ->
  forall b fuel,
    utf8_encode (js_escape escaped J) = Ok b ->
    (List.length b <= fuel)%nat ->
    keeps_or_grows escaped J (loop fuel b).
Proof.
  induction 1 as [|c J Hc _ IH]; intros b fuel Hb Hfuel.
  { injection Hb as <-. exists (Ok []). split; [now destruct fuel|].
    intros ? [= <-]. split; [lia|constructor]. }
  change (js_escape escaped (c :: J))
    with (js_escape_char escaped c ++ js_escape escaped J) in Hb.
  rewrite utf8_encode_app in Hb.
  destruct (utf8_encode (js_escape_char escaped c)) as [ub|] eqn:Eu;
    [|discriminate].
  destruct (utf8_encode (js_escape escaped J)) as [b'|]; [|discriminate].
  cbn [bind] in Hb. injection Hb as <-. rewrite length_app in Hfuel.
  specialize (IH b'). unfold js_escape_char in Eu.
  destruct (c =? 34)%N eqn:Equote.
  { apply N.eqb_eq in Equote. subst c. injection Eu as <-.
    cbn [List.length] in Hfuel. destruct fuel as [|fuel]; [lia|].
    cbn [app]. rewrite decode_quote.
    apply keeps_or_grows_step; [cbn; lia| |apply IH; [reflexivity|lia]].
    intros _. split; [reflexivity|intros _; reflexivity]. }
  destruct (c =? 92)%N eqn:Eback.
  { apply N.eqb_eq in Eback. subst c. injection Eu as <-.
    cbn [List.length] in Hfuel. destruct fuel as [|fuel]; [lia|].
    cbn [app]. rewrite decode_backslash.
    apply keeps_or_grows_step; [cbn; lia| |apply IH; [reflexivity|lia]].
    intros _. split; [reflexivity|intros _; reflexivity]. }
  apply N.eqb_neq in Eback.
  destruct (escaped c) eqn:Eesc.
  - unfold u_escape in Eu. destruct (c <? 65536)%N eqn:Ebmp.
    + apply N.ltb_lt in Ebmp.
      rewrite utf8_encode_ascii in Eu
        by (apply Forall_app; split; [repeat constructor|apply hex4_ascii]).
      assert (Hub : ub = [92; 117]%N ++ hex4 c) by congruence.
      subst ub. clear Eu. rewrite length_app in Hfuel.
      change (List.length (hex4 c)) with 4%nat in Hfuel.
      cbn [List.length] in Hfuel. destruct fuel as [|fuel]; [lia|].
      rewrite <- app_assoc.
      change ([92; 117]%N ++ hex4 c ++ b') with (92 :: 117 :: hex4 c ++ b')%N.
      rewrite decode_u_unit by exact Ebmp.
      apply keeps_or_grows_step; [cbn; lia| |apply IH; [reflexivity|lia]].
      intros _. split; [exact Ebmp|congruence].
    + apply N.ltb_ge in Ebmp.
      set (hi := (55296 + (c - 65536) / 1024)%N) in *.
      set (lo := (56320 + (c - 65536) mod 1024)%N) in *.
      assert (Hhi : (hi < 65536)%N).
      { subst hi.
        assert ((c - 65536) / 1024 < 1024)%N
          by (apply N.Div0.div_lt_upper_bound; lia).
        lia. }
      assert (Hlo : (lo < 65536)%N).
      { subst lo.
        assert ((c - 65536) mod 1024 < 1024)%N
          by (apply N.mod_lt; discriminate).
        lia. }
      rewrite utf8_encode_ascii in Eu
        by (repeat (apply Forall_app; split);
            try apply hex4_ascii; repeat constructor).
      assert (Hub : ub = [92; 117]%N ++ hex4 hi ++ [92; 117]%N ++ hex4 lo)
        by congruence.
      subst ub. clear Eu. rewrite !length_app in Hfuel.
      change (List.length (hex4 hi)) with 4%nat in Hfuel.
      change (List.length (hex4 lo)) with 4%nat in Hfuel.
      cbn [List.length] in Hfuel.
      destruct fuel as [|[|fuel]]; [lia|lia|].
      rewrite <- !app_assoc.
      change ([92; 117]%N ++ hex4 hi ++ [92; 117]%N ++ hex4 lo ++ b')
        with (92 :: 117 :: hex4 hi ++ 92 :: 117 :: hex4 lo ++ b')%N.
      rewrite decode_u_unit by exact Hhi.
      rewrite decode_u_unit by exact Hlo. rewrite prepend_app.
      apply keeps_or_grows_step; [cbn; lia|cbn; lia|apply IH; [reflexivity|lia]].
  - cbn [utf8_encode] in Eu.
    destruct (utf8_encode_char c) as [bc|] eqn:Ec; [|discriminate].
    cbn [bind] in Eu. injection Eu as <-. rewrite app_nil_r in *.
    apply utf8_encode_char_bytes in Ec as [[Hlt ->]|(Hge & Hlen & Hall)].
    + cbn [List.length] in Hfuel. destruct fuel as [|fuel]; [lia|].
      cbn [app]. rewrite decode_plain by now apply N.eqb_neq.
      apply keeps_or_grows_step; [cbn; lia| |apply IH; [reflexivity|lia]].
      intros _. split; [lia|intros _; exact Hlt].
    + replace fuel with (List.length bc + (fuel - List.length bc))%nat by lia.
      rewrite decode_run.
      * apply keeps_or_grows_step; [lia|lia|apply IH; [reflexivity|lia]].
      * intros Hin. rewrite List.Forall_forall in Hall.
        specialize (Hall _ Hin). lia.
Qed.

(** X13. For a document of valid code points, line 113 applied to its
    escaped form returns the document exactly when every character
    [survives]: it is in the basic plane and is either ASCII or written as
    an escape.  A character left literal outside ASCII, or written as a
    surrogate pair, makes the result longer than the document or makes the
    step fail. *)
Theorem unescape_recovers_iff escaped J :
  Forall (fun c => (c < 1114112)%N) J ->
  unescape ucd_lookup (js_escape escaped J) = Ok J
  <-> Forall (survives escaped) J.
Proof.
  intros Hvalid. split; [|apply unescape_js_escape].
  unfold unescape. intros H.
  destruct (utf8_encode (js_escape escaped J)) as [b|] eqn:Eb; [|discriminate].
  cbn [bind] in H. unfold decode_unicode_escape in H.
  destruct (decode_escaped escaped J Hvalid b (List.length b) Eb (le_n _))
    as (r & Hr & Hspec).
  rewrite Hr in H. now apply (Hspec J H).
Qed.

End EscapeLaws.

Lemma unescape_without_backslash_witness :
  unescape no_names [34; 233; 34]%N = Ok [34; 195; 169; 34]%N
  /\ ([34; 195; 169; 34]%N = [34; 233; 34]%N <-> is_ascii [34; 233; 34]%N).
Proof.
  apply (unescape_without_backslash no_names [34; 233; 34]%N
           [34; 195; 169; 34]%N).
  - cbn. intros [H|[H|[H|[]]]]; discriminate.
  - reflexivity.
Defined.

Lemma unescape_recovers_iff_witness :
  unescape no_names (js_escape escape_non_ascii accented_document)
  = Ok accented_document
  <-> Forall (survives escape_non_ascii) accented_document.
Proof.
  apply (unescape_recovers_iff no_names escape_non_ascii accented_document).
  unfold accented_document. repeat constructor.
Defined.

(** *** More on the date resolver *)

Lemma days_from_lower start n d :
  In d (days_from start n) -> toordinal start <= toordinal d.
Proof.
  revert start. induction n as [|n IH]; intros start H; [destruct H|].
  destruct H as [<-|H]; [lia|]. apply IH in H. cbn in H. lia.
Qed.

Lemma days_from_NoDup start n : NoDup (days_from start n).
Proof.
  revert start. induction n as [|n IH]; intros start; cbn; constructor.
  - rewrite list_elem_of_In. intros H. apply days_from_lower in H. cbn in H. lia.
  - apply IH.
Qed.

Lemma collect_days_inv start i n dates :
  collect (fun offset => date_add_days start offset)
          (List.map Z.of_nat (seq i n)) = Ok dates ->
  dates = days_from (mkdate (toordinal start + Z.of_nat i)) n.
Proof.
  revert i dates. induction n as [|n IH]; intros i dates H.
  - injection H as <-. reflexivity.
  - cbn [seq List.map collect] in H. unfold date_add_days at 1 in H.
    destruct ((1 <=? _) && (_ <=? MAXORDINAL)); [|discriminate].
    cbn [bind] in H.
    destruct (collect _ (List.map Z.of_nat (seq (S i) n))) as [ds|] eqn:E;
      [|discriminate].
    injection H as <-. apply IH in E. subst ds. cbn [days_from toordinal].
    do 3 f_equal. lia.
Qed.

Lemma split_colon_Some token a b :
  split_colon token = Some (a, b)
  <-> token = a ++ [58%N] ++ b /\ ~ In 58%N a.
Proof.
  revert a. induction token as [|c token IH]; intros a; cbn [split_colon].
  - split; [discriminate|]. intros [H _]. now destruct a.
  - destruct (c =? 58)%N eqn:E.
    + apply N.eqb_eq in E. subst c. split.
      * intros [= <- <-]. split; [reflexivity|tauto].
      * intros [H Hno]. destruct a as [|x a].
        -- cbn in H. injection H as ->. reflexivity.
        -- cbn in H. injection H as <- _. exfalso. apply Hno. now left.
    + apply N.eqb_neq in E. split.
      * destruct (split_colon token) as [[a' b']|] eqn:Es; [|discriminate].
        intros [= <- <-]. destruct (proj1 (IH a') eq_refl) as [-> Hno].
        split; [reflexivity|]. intros [H|H]; [congruence|tauto].
      * intros [H Hno]. destruct a as [|x a]; cbn in H.
        -- congruence.
        -- injection H as <- ->.
           assert (Hs : split_colon (a ++ 58%N :: b) = Some (a, b)).
           { apply IH. split; [reflexivity|]. intros Hin. apply Hno. now right. }
           now rewrite Hs.
Qed.

Lemma split_colon_None token : split_colon token = None <-> ~ In 58%N token.
Proof.
  induction token as [|c token IH]; cbn [split_colon]; [tauto|].
  destruct (c =? 58)%N eqn:E.
  - apply N.eqb_eq in E. subst c. split; [discriminate|].
    intros H. exfalso. apply H. now left.
  - apply N.eqb_neq in E.
    destruct (split_colon token) as [[a b]|].
    + split; [discriminate|]. intros H.
      assert (Hno : ~ In 58%N token) by (intros Hin; apply H; now right).
      apply IH in Hno. discriminate.
    + split; [|reflexivity]. intros _ [H|H]; [congruence|].
      exact (proj1 IH eq_refl H).
Qed.

Section MoreResolverFacts.

Variable parse : str -> bool -> result datetime.
Variable astimezone_SYDNEY : datetime -> datetime.
Variable today : date.

Local Abbreviation parse_date' := (_parse_single_date parse astimezone_SYDNEY).
Local Abbreviation resolve' := (_resolve_dates parse astimezone_SYDNEY today).
Local Abbreviation day_first := (day_first_attempt parse astimezone_SYDNEY).
Local Abbreviation month_first := (month_first_attempt parse astimezone_SYDNEY).

Lemma strip_all_space s : all_space s -> strip s = [].
Proof.
  intros H. unfold strip. rewrite all_space_lstrip by exact H. reflexivity.
Qed.

(** The ends that the two attempts agree on are in order. *)
Lemma attempts_in_order start_raw end_raw s e :
  match day_first start_raw end_raw with
  | Raise AssertionError => month_first start_raw end_raw
  | other => other
  end = Ok (s, e) ->
  toordinal s <= toordinal e.
Proof.
  assert (Hm : month_first start_raw end_raw = Ok (s, e) ->
               toordinal s <= toordinal e).
  { unfold month_first_attempt.
    destruct (parse_date' start_raw false) as [a|]; [|discriminate].
    destruct (parse_date' end_raw false) as [b|]; [|discriminate].
    cbn [bind]. unfold date_ltb. destruct (toordinal b <? toordinal a) eqn:E;
      [discriminate|].
    intros [= <- <-]. now apply Z.ltb_ge in E. }
  unfold day_first_attempt.
  destruct (parse_date' start_raw true) as [a|err].
  2:{ cbn [bind]. destruct err; try discriminate. exact Hm. }
  destruct (parse_date' end_raw true) as [b|err]; cbn [bind].
  2:{ destruct err; try discriminate. exact Hm. }
  unfold date_leb. destruct (toordinal a <=? toordinal b) eqn:E.
  - intros [= <- <-]. now apply Z.leb_le in E.
  - exact Hm.
Qed.

Lemma all_space_no_colon s : all_space s -> ~ In 58%N s.
Proof.
  induction 1 as [|c s Hc _ IH]; [tauto|].
  intros [->|H]; [discriminate|tauto].
Qed.

(** Two range tokens whose ends agree once trimmed have the same outcome. *)
Lemma resolve_trimmed_ends token1 token2 a1 b1 a2 b2 :
  split_colon token1 = Some (a1, b1) ->
  split_colon token2 = Some (a2, b2) ->
  strip a1 = strip a2 -> strip b1 = strip b2 ->
  resolve' (Some token1) = resolve' (Some token2).
Proof.
  intros H1 H2 Ha Hb. unfold _resolve_dates.
  destruct token1 as [|c1 t1]; [discriminate|].
  destruct token2 as [|c2 t2]; [discriminate|].
  now rewrite H1, H2, Ha, Hb.
Qed.

(** X14. Blanks around the ends of a range do not count, and the range is
    cut at its first colon: with no colon in [a], the token made of [a] and
    [b] with any whitespace around each of them has the outcome of the token
    [a:b], whatever the parser answers (the same dates or the same
    exception).  [b] may hold further colons, as in a time of day. *)
Theorem range_ends_ignore_blanks lead1 a trail1 lead2 b trail2 :
  ~ In 58%N a ->
  all_space lead1 -> all_space trail1 -> all_space lead2 -> all_space trail2 ->
  resolve' (Some ((lead1 ++ a ++ trail1) ++ [58%N] ++ (lead2 ++ b ++ trail2)))
  = resolve' (Some (a ++ [58%N] ++ b)).
Proof.
  intros Ha Hl1 Ht1 Hl2 Ht2.
  apply (resolve_trimmed_ends _ _ (lead1 ++ a ++ trail1) (lead2 ++ b ++ trail2)
           a b).
  - apply split_colon_Some. split; [reflexivity|].
    rewrite !in_app_iff. intros [H|[H|H]]; [|tauto|];
      revert H; now apply all_space_no_colon.
  - apply split_colon_Some. now split.
  - now apply strip_padding.
  - now apply strip_padding.
Qed.

(** X15. A range token with nothing but blanks before its first colon, or
    nothing but blanks after it, is refused with [BadParameter] (both start
    and end are required); the parser is not consulted. *)
Theorem range_needs_both_ends a b :
  ~ In 58%N a -> all_space a \/ all_space b ->
  resolve' (Some (a ++ [58%N] ++ b))
  = Raise (BadParameter range_message (lit "--date")).
Proof.
  intros Hno Hblank.
  assert (Hs : split_colon (a ++ [58%N] ++ b) = Some (a, b))
    by (apply split_colon_Some; now split).
  unfold _resolve_dates.
  destruct (a ++ [58%N] ++ b) as [|c token] eqn:E; [discriminate|].
  rewrite Hs. destruct Hblank as [H|H]; rewrite (strip_all_space _ H).
  - reflexivity.
  - now destruct (strip a).
Qed.

(** X16. A range whose end is before its start in the day-first reading
    and also in the month-first reading is refused with [BadParameter] (end
    date must be on or after start date). *)
Theorem range_inverted_both_ways token a b A1 B1 A B :
  split_colon token = Some (a, b) ->
  strip a <> [] -> strip b <> [] ->
  parse_date' (strip a) true = Ok A1 ->
  parse_date' (strip b) true = Ok B1 ->
  date_lt B1 A1 ->
  parse_date' (strip a) false = Ok A ->
  parse_date' (strip b) false = Ok B ->
  date_lt B A ->
  resolve' (Some token) = Raise (BadParameter order_message (lit "--date")).
Proof.
  intros Hsplit Ha Hb HA1 HB1 Hlt1 HA HB Hlt.
  rewrite (resolve_range _ _ _ _ _ _ Hsplit Ha Hb).
  unfold day_first_attempt. rewrite HA1, HB1. cbn [bind].
  unfold date_lt in *. unfold date_leb.
  rewrite (proj2 (Z.leb_gt _ _) Hlt1).
  unfold month_first_attempt. rewrite HA, HB. cbn [bind].
  unfold date_ltb. rewrite (proj2 (Z.ltb_lt _ _) Hlt). reflexivity.
Qed.

(** X17. Whatever the token, a list that [_resolve_dates] returns is a run
    of consecutive days: it is not empty, each date is the day after the
    one before it, and no date occurs twice. *)
Theorem resolved_dates_consecutive date_token dates :
  resolve' date_token = Ok dates ->
  exists first n, dates = days_from first (S n) /\ NoDup dates.
Proof.
  intros H.
  enough (exists first n, dates = days_from first (S n)) as (first & n & ->)
    by (exists first, n; split; [reflexivity|apply days_from_NoDup]).
  unfold _resolve_dates in H.
  destruct date_token as [[|c token]|];
    try (injection H as <-; now exists today, 0%nat).
  destruct (split_colon (c :: token)) as [[a b]|].
  - destruct (strip a) as [|x sa]; [discriminate|].
    destruct (strip b) as [|y sb]; [discriminate|].
    destruct (match day_first_attempt _ _ _ _ with
              | Ok _ => _ | Raise _ => _ end) as [[s e]|err] eqn:Eends;
      [|discriminate].
    apply attempts_in_order in Eends. cbn [bind] in H.
    unfold range, date_sub_days in H. apply collect_days_inv in H.
    exists s, (Z.to_nat (toordinal e - toordinal s)).
    rewrite H. destruct s as [o]. cbn [toordinal] in *. f_equal.
    + f_equal. lia.
    + lia.
  - destruct (parse_date' (c :: token) true) as [d|]; [|discriminate].
    injection H as <-. now exists d, 0%nat.
Qed.

End MoreResolverFacts.

Lemma range_ends_ignore_blanks_witness :
  _resolve_dates flexible_parse ten_hours_east new_year_2024
    (Some (lit " 03/04/2024 : 05/04/2024 "))
  = _resolve_dates flexible_parse ten_hours_east new_year_2024
      (Some (lit "03/04/2024:05/04/2024"))
  /\ _resolve_dates flexible_parse ten_hours_east new_year_2024
       (Some (lit "03/04/2024:05/04/2024"))
     = Ok [date_of_ymd 2024 4 3; date_of_ymd 2024 4 4; date_of_ymd 2024 4 5].
Proof.
  split; [|vm_compute; reflexivity].
  apply (range_ends_ignore_blanks flexible_parse ten_hours_east new_year_2024
           (lit " ") (lit "03/04/2024") (lit " ")
           (lit " ") (lit "05/04/2024") (lit " ")).
  - vm_compute. intros H. repeat destruct H as [H|H]; try discriminate; exact H.
  - repeat constructor.
  - repeat constructor.
  - repeat constructor.
  - repeat constructor.
Defined.

Lemma range_needs_both_ends_witness :
  _resolve_dates numeric_parse ten_hours_east new_year_2024
    (Some (lit "03/04/2024" ++ [58%N] ++ lit "  "))
  = Raise (BadParameter range_message (lit "--date")).
Proof.
  apply (range_needs_both_ends numeric_parse ten_hours_east new_year_2024
           (lit "03/04/2024") (lit "  ")).
  - vm_compute. intros H. repeat destruct H as [H|H]; try discriminate; exact H.
  - right. repeat constructor.
Defined.

Lemma range_inverted_both_ways_witness :
  _resolve_dates numeric_parse ten_hours_east new_year_2024
    (Some (lit "05/07/2024:03/06/2024"))
  = Raise (BadParameter order_message (lit "--date")).
Proof.
  apply (range_inverted_both_ways numeric_parse ten_hours_east new_year_2024
           (lit "05/07/2024:03/06/2024") (lit "05/07/2024") (lit "03/06/2024")
           (date_of_ymd 2024 7 5) (date_of_ymd 2024 6 3)
           (date_of_ymd 2024 5 7) (date_of_ymd 2024 3 6)).
  - reflexivity.
  - vm_compute. discriminate.
  - vm_compute. discriminate.
  - reflexivity.
  - reflexivity.
  - vm_compute. reflexivity.
  - reflexivity.
  - reflexivity.
  - vm_compute. reflexivity.
Defined.

Lemma resolved_dates_consecutive_witness :
  exists first n,
    [date_of_ymd 2024 4 3; date_of_ymd 2024 4 4; date_of_ymd 2024 4 5]
    = days_from first (S n)
    /\ NoDup [date_of_ymd 2024 4 3; date_of_ymd 2024 4 4; date_of_ymd 2024 4 5].
Proof.
  apply (resolved_dates_consecutive numeric_parse ten_hours_east new_year_2024
           (Some (lit "03/04/2024 : 05/04/2024"))).
  vm_compute. reflexivity.
Defined.

(** *** More on the conversion log file *)

Section MoreLogFacts.

Variable repr : str -> str.
Variable open_append : Path -> gmap Path str -> result unit.

Local Abbreviation line' := (log_line repr).

(** A flush that returns normally with records to write has opened the log
    file and appended its block. *)
Lemma flush_files timestamp output_path w w' :
  conversion_log w <> [] ->
  _write_conversion_log repr timestamp open_append output_path w = (Ok tt, w') ->
  files w'
  = append_file (output_path ++ [lit "encoding-conversions.log"])
      (log_header timestamp ++ List.concat (List.map line' (conversion_log w)))
      (files w)
  /\ conversion_log w' = [].
Proof.
  intros Hne. unfold _write_conversion_log.
  destruct (conversion_log w) as [|r records] eqn:E; [congruence|].
  destruct (open_append _ (files w)); [|discriminate].
  intros [= <-]. cbn [files conversion_log].
  rewrite fold_append_lines, append_file_twice. split; reflexivity.
Qed.

(** X18. Two flushes to the same directory that both return normally add
    up: the block of the first flush stays in the log file and the block of
    the second, under a header with the timestamp of the second flush and
    with the records sanitized in between, comes after it. *)
Theorem flushes_accumulate first_time second_time output_path w later shown
    w1 w2 :
  conversion_log w <> [] -> later <> [] ->
  let log_file := output_path ++ [lit "encoding-conversions.log"] in
  let block timestamp records :=
    ([10%N] ++ lit "=== Conversion Log [" ++ timestamp ++ lit "] ==="
       ++ [10%N])
      ++ List.concat
           (List.map
              (fun '(original, sanitized, context) =>
                 lit "  [" ++ context ++ lit "] " ++ repr original
                   ++ [32%N; 8594%N; 32%N] ++ repr sanitized ++ [10%N])
              records) in
  _write_conversion_log repr first_time open_append output_path w
  = (Ok tt, w1) ->
  _write_conversion_log repr second_time open_append output_path
    (mkWorld later (files w1) shown)
  = (Ok tt, w2) ->
  files w2 !! log_file
  = Some (default [] (files w !! log_file)
            ++ block first_time (conversion_log w)
            ++ block second_time later)
  /\ conversion_log w2 = [].
Proof.
  intros Hw Hlater log_file block H1 H2.
  destruct (flush_files _ _ _ _ Hw H1) as [Hf1 _].
  destruct (flush_files second_time output_path
              (mkWorld later (files w1) shown) w2 Hlater H2) as [Hf2 Hl2].
  cbn [files conversion_log] in Hf2. rewrite Hf2, Hf1, append_file_twice.
  unfold append_file. rewrite lookup_insert_eq. split; [reflexivity|exact Hl2].
Qed.

Lemma count_newlines_app a b :
  count_newlines (a ++ b) = (count_newlines a + count_newlines b)%nat.
Proof. unfold count_newlines. now rewrite List.filter_app, length_app. Qed.

Lemma count_newlines_none s : ~ In 10%N s -> count_newlines s = 0%nat.
Proof.
  unfold count_newlines. induction s as [|c s IH]; intros H; [reflexivity|].
  cbn. destruct (c =? 10)%N eqn:E.
  - apply N.eqb_eq in E. exfalso. apply H. now left.
  - apply IH. intros Hin. apply H. now right.
Qed.

Lemma record_lines (records : list ConversionRecord) :
  (forall s, ~ In 10%N (repr s)) ->
  Forall (fun rec : ConversionRecord => ~ In 10%N (snd rec)) records ->
  count_newlines (List.concat (List.map line' records)) = List.length records.
Proof.
  intros Hrepr.
  induction 1 as [|[[original sanitized] context] records Hc _ IH];
    [reflexivity|].
  cbn [List.map List.concat List.length]. rewrite count_newlines_app, IH.
  unfold log_line. rewrite !count_newlines_app.
  rewrite !(count_newlines_none (repr _)) by apply Hrepr.
  rewrite (count_newlines_none context) by exact Hc.
  reflexivity.
Qed.

(** X19. One line per record.  When neither the timestamp, nor a context,
    nor any text that [repr] returns holds a newline, the block that a flush
    returning normally appends to the log file has two line ends for its
    header (the empty line before it and its own) and one for each
    record. *)
Theorem flush_writes_one_line_per_record timestamp output_path w w' :
  conversion_log w <> [] ->
  ~ In 10%N timestamp ->
  (forall s, ~ In 10%N (repr s)) ->
  Forall (fun rec : ConversionRecord => ~ In 10%N (snd rec)) (conversion_log w) ->
  _write_conversion_log repr timestamp open_append output_path w = (Ok tt, w') ->
  exists block,
    files w' !! (output_path ++ [lit "encoding-conversions.log"])
    = Some (default [] (files w !! (output_path
                                     ++ [lit "encoding-conversions.log"]))
              ++ block)
    /\ count_newlines block = (2 + List.length (conversion_log w))%nat.
Proof.
  intros Hne Hts Hrepr Hctx Hflush.
  destruct (flush_files timestamp output_path w w' Hne Hflush) as [-> _].
  eexists. split; [unfold append_file; now rewrite lookup_insert_eq|].
  rewrite count_newlines_app. unfold log_header.
  rewrite !count_newlines_app, (count_newlines_none timestamp Hts).
  change (count_newlines [10%N]) with 1%nat.
  change (count_newlines (lit "=== Conversion Log [")) with 0%nat.
  change (count_newlines (lit "] ===")) with 0%nat.
  rewrite (record_lines _ Hrepr Hctx). lia.
Qed.

End MoreLogFacts.

(** *** The sanitizer and the builder together with the loop *)

Lemma lstrip_idempotent s : lstrip (lstrip s) = lstrip s.
Proof.
  induction s as [|c s IH]; [reflexivity|]. cbn.
  destruct (is_space c) eqn:E; [exact IH|]. cbn. now rewrite E.
Qed.

Lemma rstrip_idempotent s : rstrip (rstrip s) = rstrip s.
Proof. unfold rstrip. now rewrite rev_involutive, lstrip_idempotent. Qed.

Lemma lstrip_keeps_trimmed s c r :
  s = c :: r -> is_space c = false -> lstrip s = s.
Proof. intros -> H. cbn. now rewrite H. Qed.

Lemma strip_idempotent s : strip (strip s) = strip s.
Proof.
  destruct (strip s) as [|c r] eqn:E; [reflexivity|].
  pose proof (strip_head s c r E) as Hc.
  unfold strip at 1. rewrite (lstrip_keeps_trimmed (c :: r) c r eq_refl Hc).
  rewrite <- E. unfold strip. apply rstrip_idempotent.
Qed.

Section SanitizerShape.

Variables (html2text demojize unidecode : str -> str).

(** X20. Whatever the three libraries return, the text that
    [_sanitize_for_latin1] returns for a non-empty text is trimmed: stripping
    it again changes nothing, so it neither begins nor ends with
    whitespace. *)
Theorem sanitized_is_trimmed text context log s :
  text <> [] ->
  fst (_sanitize_for_latin1 html2text demojize unidecode (Some text)
         context log) = Some s ->
  strip s = s /\ (forall c r, s = c :: r -> is_space c = false)
  /\ (forall c r, s = r ++ [c] -> is_space c = false).
Proof.
  intros Hne H. rewrite sanitize_value in H. unfold sanitized_value in H.
  destruct text as [|x t]; [congruence|]. injection H as <-.
  unfold sanitized_text.
  set (raw := unidecode (demojize (html2text (x :: t)))).
  assert (Hs : strip (strip raw) = strip raw) by apply strip_idempotent.
  split; [exact Hs|]. split.
  - intros c r E. now apply (strip_head raw c r).
  - intros c r E. unfold strip in E.
    assert (Hrev : lstrip (rev (lstrip raw)) = c :: rev r).
    { unfold rstrip in E. apply (f_equal (@rev N)) in E.
      rewrite rev_involutive, rev_app_distr in E. exact E. }
    now apply lstrip_head in Hrev.
Qed.

Lemma sanitize_fst text context l1 l2 :
  fst (_sanitize_for_latin1 html2text demojize unidecode text context l1)
  = fst (_sanitize_for_latin1 html2text demojize unidecode text context l2).
Proof.
  unfold _sanitize_for_latin1. destruct text as [[|c t]|]; try reflexivity.
  now destruct (bool_decide _).
Qed.

Lemma to_puzzle_value_independent self l1 l2 :
  fst (to_puzzle html2text demojize unidecode self l1)
  = fst (to_puzzle html2text demojize unidecode self l2).
Proof.
  unfold to_puzzle.
  destruct (crossword_data self) as [[data|]|]; try reflexivity.
  destruct (negb (str_eqb (r_date data) _)); [reflexivity|].
  destruct (negb (str_eqb (upper _) (r_type data))); [reflexivity|].
  destruct (grid data); [reflexivity|].
  match goal with
  | |- context [sanitize_each _ _ _ ?texts ?ctx l1] =>
      pose proof (sanitize_each_values html2text demojize unidecode
                    texts ctx l1) as H1;
      pose proof (sanitize_each_values html2text demojize unidecode
                    texts ctx l2) as H2;
      destruct (sanitize_each html2text demojize unidecode texts ctx l1)
        as [c1 m1];
      destruct (sanitize_each html2text demojize unidecode texts ctx l2)
        as [c2 m2]
  end.
  cbn [fst] in H1, H2.
  match goal with
  | |- context [_sanitize_for_latin1 _ _ _ ?text ?ctx m1] =>
      pose proof (sanitize_fst text ctx m1 m2) as H3;
      destruct (_sanitize_for_latin1 html2text demojize unidecode text ctx m1)
        as [n1 k1];
      destruct (_sanitize_for_latin1 html2text demojize unidecode text ctx m2)
        as [n2 k2]
  end.
  cbn [fst] in *. congruence.
Qed.

Lemma changed_with_records_change context rec :
  changed_with context rec -> records_change rec.
Proof. destruct rec as [[o s] c]. now intros [H _]. Qed.

Lemma to_puzzle_log self log :
  exists added,
    snd (to_puzzle html2text demojize unidecode self log) = log ++ added
    /\ Forall records_change added.
Proof.
  assert (Hnil : exists added : list ConversionRecord,
             log = log ++ added /\ Forall records_change added)
    by (exists []; rewrite app_nil_r; split; [reflexivity|constructor]).
  unfold to_puzzle.
  destruct (crossword_data self) as [[data|]|]; try exact Hnil.
  destruct (negb (str_eqb (r_date data) _)); [exact Hnil|].
  destruct (negb (str_eqb (upper _) (r_type data))); [exact Hnil|].
  destruct (grid data); [exact Hnil|].
  match goal with
  | |- context [sanitize_each _ _ _ ?texts ?ctx log] =>
      destruct (sanitize_each_log html2text demojize unidecode texts ctx log)
        as (a1 & H1 & _ & F1);
      destruct (sanitize_each html2text demojize unidecode texts ctx log)
        as [cl m1]
  end.
  cbn [snd] in H1. subst m1.
  match goal with
  | |- context [_sanitize_for_latin1 _ _ _ ?text ?ctx ?l] =>
      destruct (sanitize_log html2text demojize unidecode text ctx l)
        as (a2 & H2 & _ & F2);
      destruct (_sanitize_for_latin1 html2text demojize unidecode text ctx l)
        as [nt m2]
  end.
  cbn [snd] in *. subst m2. exists (a1 ++ a2). rewrite app_assoc.
  split; [reflexivity|]. apply Forall_app.
  split; (eapply Forall_impl; [eassumption|]);
    intros rec; apply changed_with_records_change.
Qed.

End SanitizerShape.

Section LoopFacts.

Variables (html2text demojize unidecode : str -> str).
Variable script_strings : bytes -> list (option str).
Variable loads_crossword : str -> result (option RawCrosswordRecord).
Variable ucd_lookup : bytes -> option N.
Variable save : Puzzle -> Path -> result unit.

Local Abbreviation attempt' :=
  (attempt html2text demojize unidecode script_strings loads_crossword
           ucd_lookup save).
Local Abbreviation process :=
  (process_crosswords html2text demojize unidecode script_strings
                      loads_crossword ucd_lookup save).
Local Abbreviation step :=
  (process_one html2text demojize unidecode script_strings loads_crossword
               ucd_lookup save).
Local Abbreviation alone' :=
  (alone html2text demojize unidecode script_strings loads_crossword
         ucd_lookup save).

Lemma attempt_value_independent cw destination l1 l2 :
  fst (attempt' cw destination l1) = fst (attempt' cw destination l2).
Proof.
  unfold attempt.
  destruct (extract_crossword _ _ _ cw) as [[[]|e] cw']; [|reflexivity].
  pose proof (to_puzzle_value_independent html2text demojize unidecode
                cw' l1 l2) as H.
  destruct (to_puzzle _ _ _ cw' l1) as [[p1|e1] m1],
           (to_puzzle _ _ _ cw' l2) as [[p2|e2] m2];
    cbn [fst] in H; try discriminate; injection H as <-; [|reflexivity].
  now destruct (save p1 destination).
Qed.

Lemma attempt_log cw destination log :
  exists added,
    snd (attempt' cw destination log) = log ++ added
    /\ Forall records_change added.
Proof.
  unfold attempt.
  destruct (extract_crossword _ _ _ cw) as [[[]|e] cw'].
  2:{ exists []. rewrite app_nil_r. split; [reflexivity|constructor]. }
  destruct (to_puzzle_log html2text demojize unidecode cw' log)
    as (added & H & F).
  destruct (to_puzzle _ _ _ cw' log) as [[p|e] m]; cbn [snd] in *;
    [destruct (save p destination)|]; eauto.
Qed.

Lemma step_outcome run cw destination :
  run_saved (step run (cw, destination))
  = run_saved run ++ saved_of alone' (cw, destination)
  /\ run_failed (step run (cw, destination))
     = run_failed run ++ failed_of alone' (cw, destination).
Proof.
  unfold process_one, saved_of, failed_of, alone. cbn [fst snd].
  pose proof (attempt_value_independent cw destination (run_log run) [])
    as Hv.
  destruct (attempt' cw destination (run_log run)) as [[p|e] log'],
           (attempt' cw destination []) as [[p0|e0] log0];
    cbn [fst] in Hv; try discriminate; injection Hv as <-;
    cbn [run_saved run_failed]; rewrite ?app_nil_r; now split.
Qed.

Lemma loop_outcomes crossword_objs run :
  run_saved (process crossword_objs run)
  = run_saved run ++ List.concat (List.map (saved_of alone') crossword_objs)
  /\ run_failed (process crossword_objs run)
     = run_failed run
         ++ List.concat (List.map (failed_of alone') crossword_objs).
Proof.
  unfold process_crosswords. revert run.
  induction crossword_objs as [|[cw destination] items IH]; intros run.
  - cbn. now rewrite !app_nil_r.
  - cbn [fold_left List.map List.concat].
    destruct (IH (step run (cw, destination))) as [-> ->].
    destruct (step_outcome run cw destination) as [-> ->].
    now rewrite <- !app_assoc.
Qed.

Lemma one_outcome_each outcome (items : list (Crossword * Path)) :
  (List.length (List.concat (List.map (saved_of outcome) items))
   + List.length (List.concat (List.map (failed_of outcome) items))
   = List.length items)%nat.
Proof.
  induction items as [|item items IH]; [reflexivity|].
  cbn [List.map List.concat List.length]. rewrite !length_app.
  unfold saved_of at 1, failed_of at 1.
  destruct (outcome item); cbn [List.length]; lia.
Qed.

(** X21. Failures are isolated.  After the loop, the saved puzzles are
    those of the items that succeed when processed on their own, with their
    destinations and in the order of the items, and the reported failures are
    those of the items that fail on their own, each with the exception it
    raises: no item changes the outcome of another, and every item is either
    saved or reported. *)
Theorem failures_are_isolated crossword_objs run :
  run_saved (process crossword_objs run)
  = run_saved run ++ List.concat (List.map (saved_of alone') crossword_objs)
  /\ run_failed (process crossword_objs run)
     = run_failed run ++ List.concat (List.map (failed_of alone') crossword_objs)
  /\ (List.length (run_saved (process crossword_objs run))
      + List.length (run_failed (process crossword_objs run))
      = List.length (run_saved run) + List.length (run_failed run)
        + List.length crossword_objs)%nat.
Proof.
  destruct (loop_outcomes crossword_objs run) as [Hs Hf].
  split; [exact Hs|]. split; [exact Hf|].
  rewrite Hs, Hf, !length_app.
  pose proof (one_outcome_each alone' crossword_objs). lia.
Qed.

(** X22. The loop only adds to the conversion log: the records that were in
    it stay where they are, and every record that is added records a
    change (its sanitized text is not its original). *)
Theorem loop_extends_log crossword_objs run :
  exists added,
    run_log (process crossword_objs run) = run_log run ++ added
    /\ Forall records_change added.
Proof.
  unfold process_crosswords. revert run.
  induction crossword_objs as [|[cw destination] items IH]; intros run.
  - exists []. cbn. rewrite app_nil_r. split; [reflexivity|constructor].
  - cbn [fold_left].
    destruct (IH (step run (cw, destination))) as (a2 & H2 & F2).
    destruct (attempt_log cw destination (run_log run)) as (a1 & H1 & F1).
    exists (a1 ++ a2). rewrite H2. unfold process_one.
    destruct (attempt' cw destination (run_log run)) as [[p|e] log'];
      cbn [snd run_log] in *; subst log'; rewrite app_assoc;
      (split; [reflexivity|apply Forall_app; now split]).
Qed.

End LoopFacts.

Section Composition.

Variables (html2text demojize unidecode : str -> str).
Variable script_strings : bytes -> list (option str).
Variable loads_crossword : str -> result (option RawCrosswordRecord).
Variable ucd_lookup : bytes -> option N.


End Composition.


Lemma sanitized_is_trimmed_witness :
  strip (lit "Old (3)") = lit "Old (3)"
  /\ (forall c r, lit "Old (3)" = c :: r -> is_space c = false)
  /\ (forall c r, lit "Old (3)" = r ++ [c] -> is_space c = false).
Proof.
  apply (sanitized_is_trimmed html2text_plain leave_as_is leave_as_is
           (lit " Old (3) ") (lit "clue") []).
  - discriminate.
  - vm_compute. reflexivity.
Defined.

Lemma quoted_one_line_no_newline s : ~ In 10%N (quoted_one_line s).
Proof.
  assert (Hbody : ~ In 10%N (List.concat
                              (List.map (fun c => if (c =? 10)%N
                                                  then [92%N; 110%N] else [c])
                                        s))).
  { induction s as [|c s IH]; [intros []|].
    cbn [List.map List.concat]. intros H.
    apply in_app_or in H as [H|H]; [|tauto].
    destruct (c =? 10)%N eqn:E.
    - destruct H as [H|[H|[]]]; discriminate.
    - destruct H as [H|[]]. apply N.eqb_neq in E. congruence. }
  unfold quoted_one_line. intros H.
  apply in_app_or in H as [[H|[]]|H]; [discriminate|].
  apply in_app_or in H as [H|[H|[]]]; [tauto|discriminate].
Qed.

Lemma flushes_accumulate_witness :
  let os := open_below [[lit "out"]] in
  let w1 :=
    snd (_write_conversion_log quoted_one_line (lit "2024-04-03T10:00:00") os
           [lit "out"] sample_world) in
  let w2 :=
    snd (_write_conversion_log quoted_one_line (lit "2024-04-04T09:00:00") os
           [lit "out"]
           (mkWorld [(lit "x ", lit "x", lit "notes")] (files w1) [])) in
  files w2 !! [lit "out"; lit "encoding-conversions.log"]
  = Some ([]
            ++ (([10%N] ++ lit "=== Conversion Log [2024-04-03T10:00:00] ==="
                   ++ [10%N])
                  ++ lit "  [clue Cryptic, Wednesday, April 03, 2024] ' a' "
                  ++ [8594%N] ++ lit " 'a'" ++ [10%N])
            ++ (([10%N] ++ lit "=== Conversion Log [2024-04-04T09:00:00] ==="
                   ++ [10%N])
                  ++ lit "  [notes] 'x ' " ++ [8594%N] ++ lit " 'x'" ++ [10%N]))
  /\ conversion_log w2 = [].
Proof.
  intros os w1 w2.
  apply (flushes_accumulate quoted_one_line os (lit "2024-04-03T10:00:00")
           (lit "2024-04-04T09:00:00") [lit "out"] sample_world
           [(lit "x ", lit "x", lit "notes")] [] w1 w2).
  - discriminate.
  - discriminate.
  - reflexivity.
  - reflexivity.
Defined.

Lemma flush_writes_one_line_per_record_witness :
  exists block,
    files (snd (_write_conversion_log quoted_one_line
                  (lit "2024-04-03T10:00:00") (open_below [[lit "out"]])
                  [lit "out"] sample_world))
    !! [lit "out"; lit "encoding-conversions.log"]
    = Some ([] ++ block)
    /\ count_newlines block = 3%nat.
Proof.
  apply (flush_writes_one_line_per_record quoted_one_line
           (open_below [[lit "out"]])
           (lit "2024-04-03T10:00:00") [lit "out"] sample_world).
  - discriminate.
  - vm_compute. intros H. repeat destruct H as [H|H]; try discriminate; exact H.
  - apply quoted_one_line_no_newline.
  - constructor; [|constructor].
    vm_compute. intros H. repeat destruct H as [H|H]; try discriminate; exact H.
  - reflexivity.
Defined.

Example sample_run :
  process_crosswords html2text_plain leave_as_is leave_as_is whole_body_script
    reads_accented no_names
    (save_unless [lit "nowhere"]) sample_items (mkRun [] [] [])
  = mkRun []
      [([lit "out"; lit "cryptic"; lit "2024-04-03-cryptic.puz"], sample_puzzle)]
      [(MINI, date_of_ymd 2024 4 3, RuntimeError not_found_message);
       (CRYPTIC, date_of_ymd 2024 4 3, HTTPError)].
Proof. vm_compute. reflexivity. Qed.

(** *** Further properties of the sanitizer, the pattern and the grid *)

Section FurtherFacts.

Variables (html2text demojize unidecode : str -> str).
Variable script_strings : bytes -> list (option str).
Variable loads_crossword : str -> result (option RawCrosswordRecord).
Variable ucd_lookup : bytes -> option N.

(** X24. The conversion log records exactly the changes: a call of
    [_sanitize_for_latin1] either returns its argument and leaves the log as
    it is, or returns a text different from the one it was given and appends
    the one record of the original, the returned text and the context.
    [None] and the empty string are always returned as they are. *)
Theorem sanitize_logs_exactly_changes text context log :
  let outcome :=
    _sanitize_for_latin1 html2text demojize unidecode text context log in
  (fst outcome = text /\ snd outcome = log)
  \/ (exists original sanitized,
        text = Some original /\ original <> []
        /\ fst outcome = Some sanitized /\ sanitized <> original
        /\ snd outcome = log ++ [(original, sanitized, context)]).
Proof.
  cbv zeta. unfold _sanitize_for_latin1.
  destruct text as [[|c t]|]; [now left| |now left].
  destruct (bool_decide_reflect
              (sanitized_text html2text demojize unidecode (c :: t) <> c :: t))
    as [Hne|Heq].
  - right. exists (c :: t), (sanitized_text html2text demojize unidecode (c :: t)).
    cbn [fst snd]. repeat split; [discriminate|exact Hne].
  - left. cbn [fst snd]. split; [|reflexivity]. f_equal.
    destruct (decide (sanitized_text html2text demojize unidecode (c :: t)
                      = c :: t)) as [E|E]; [exact E|contradiction].
Qed.

(** X25. Before anything is parsed.  A response with a failure status
    raises [HTTPError] whatever its body, and a successful response with an
    empty body raises [ValueError] (response content is empty); in both
    cases the object is unchanged and neither the HTML parser nor the JSON
    reader has any influence. *)
Theorem extract_checks_response_first self resp :
  response self = Some resp ->
  status_ok resp = false \/ content resp = [] ->
  extract_crossword script_strings loads_crossword ucd_lookup self
  = (Raise (if status_ok resp then ValueError empty_message else HTTPError),
     self).
Proof.
  intros Hresp H. unfold extract_crossword. rewrite Hresp.
  destruct (status_ok resp); cbn [negb]; [|reflexivity].
  destruct H as [H|H]; [discriminate|]. now rewrite H.
Qed.

End FurtherFacts.

(** X26. The group is greedy.  In a text that starts with the prefix and
    whose first line ends with the suffix, the group is everything in
    between, also when that holds the suffix itself: the match runs to the
    last suffix of the line. *)
Theorem re_search_group_greedy g tail :
  g <> [] -> ~ In 10%N g -> line_ends tail ->
  re_search_group (state_prefix ++ g ++ state_suffix ++ tail) = Some g.
Proof.
  intros Hne Hnl Htail. apply re_search_group_here.
  rewrite until_newline_app by exact Hnl.
  rewrite until_newline_app by exact state_suffix_no_newline.
  replace (until_newline tail) with (@nil N).
  - rewrite app_nil_r. now apply greedy_group_exact.
  - destruct tail as [|c tail]; [reflexivity|]. cbn in Htail. subst c.
    reflexivity.
Qed.

Lemma concat_single_length (row : list str) :
  Forall (fun cell : str => List.length cell = 1%nat) row ->
  List.length (List.concat row) = List.length row.
Proof.
  induction 1 as [|cell row Hcell _ IH]; [reflexivity|].
  cbn. now rewrite length_app, Hcell, IH.
Qed.

Lemma row_cell (row : list str) c ch :
  Forall (fun cell : str => List.length cell = 1%nat) row ->
  nth_error row c = Some [ch] ->
  nth_error (List.concat row) c = Some ch.
Proof.
  intros Hrow. revert c.
  induction Hrow as [|cell row Hcell _ IH]; intros c H.
  - destruct c; discriminate.
  - destruct cell as [|x [|y cell]]; try discriminate. cbn [List.concat app].
    destruct c as [|c]; cbn in H |- *.
    + now injection H as ->.
    + now apply IH.
Qed.

Lemma grid_cell w (g : list (list str)) r c row ch :
  Forall (fun row => List.length row = w) g ->
  single_characters g ->
  nth_error g r = Some row ->
  nth_error row c = Some [ch] ->
  nth_error (List.concat (List.map (@List.concat N) g)) (r * w + c) = Some ch.
Proof.
  intros Hw Hs. revert r. unfold single_characters in Hs.
  induction g as [|row0 g IH]; intros r Hr Hc.
  - destruct r; discriminate.
  - inversion Hw as [|? ? Hw0 Hw']. inversion Hs as [|? ? Hs0 Hs']. subst.
    cbn [List.map List.concat].
    pose proof (concat_single_length row0 Hs0) as Hlen.
    destruct r as [|r].
    + cbn in Hr. injection Hr as ->. cbn [Nat.mul Nat.add].
      rewrite nth_error_app1.
      * now apply row_cell.
      * rewrite Hlen. apply nth_error_Some. congruence.
    + cbn in Hr. rewrite nth_error_app2 by (rewrite Hlen; lia).
      replace (S r * List.length row0 + c - List.length (List.concat row0))%nat
        with (r * List.length row0 + c)%nat by (rewrite Hlen; lia).
      now apply IH.
Qed.

Section GridFacts.

Variables (html2text demojize unidecode : str -> str).

(** X27. The solution lists the grid row by row.  In a puzzle built from a
    record whose rows all have the same length and whose cells are single
    characters, the character of the cell in row [r] and column [c]
    (counted from 0) stands at index [r * width + c] of the solution. *)
Theorem solution_is_row_major self data log p log' r c row ch :
  to_puzzle html2text demojize unidecode self log = (Ok p, log') ->
  crossword_data self = Some (Some data) ->
  rows_equal_length (grid data) -> single_characters (grid data) ->
  nth_error (grid data) r = Some row ->
  nth_error row c = Some [ch] ->
  nth_error (solution p) (r * width p + c) = Some ch.
Proof.
  intros H Hself [w Hrows] Hcells Hr Hc.
  apply to_puzzle_Ok_inv in H
    as (data' & row0 & rows & Hdata & _ & _ & Hg & Hw & _ & Hs & _).
  assert (data' = data) as -> by congruence.
  rewrite Hs, Hw.
  assert (w = List.length row0) as <-.
  { rewrite Hg in Hrows. now inversion Hrows. }
  now apply (grid_cell w (grid data) r c row ch).
Qed.

End GridFacts.

Lemma extract_checks_response_first_witness :
  extract_crossword whole_body_script reads_accented no_names
    (Crossword_init MINI (date_of_ymd 2024 4 3) (mkResponse true []))
  = (Raise (ValueError empty_message),
     Crossword_init MINI (date_of_ymd 2024 4 3) (mkResponse true [])).
Proof.
  apply (extract_checks_response_first whole_body_script reads_accented
           no_names _ (mkResponse true [])).
  - reflexivity.
  - right. reflexivity.
Defined.

Lemma re_search_group_greedy_witness :
  re_search_group
    (state_prefix ++ (lit "a" ++ state_suffix ++ lit " b") ++ state_suffix
       ++ [10%N] ++ lit "next();")
  = Some (lit "a" ++ state_suffix ++ lit " b").
Proof.
  apply (re_search_group_greedy (lit "a" ++ state_suffix ++ lit " b")
           ([10%N] ++ lit "next();")).
  - discriminate.
  - vm_compute. intros H. repeat destruct H as [H|H]; try discriminate; exact H.
  - reflexivity.
Defined.

Lemma solution_is_row_major_witness :
  nth_error (solution noted_puzzle) (1 * width noted_puzzle + 1) = Some 46%N.
Proof.
  apply (solution_is_row_major html2text_plain leave_as_is leave_as_is
           noted_crossword
           (mkRecord (lit "2024-04-03") (lit "CRYPTIC") (lit "DA") sample_grid
              [mkClue 1 (lit "Cold (3)"); mkClue 4 (lit " Old (3)")]
              [mkClue 1 (lit "Cot (3)"); mkClue 2 (lit "Ode (3)")]
              (Some (lit "No anagrams")) (Some (lit "Easy")))
           [] noted_puzzle noted_log 1%nat 1%nat
           [lit "O"; lit "."; lit "O"] 46%N).
  - vm_compute. reflexivity.
  - reflexivity.
  - exists 3%nat. repeat constructor.
  - repeat constructor.
  - reflexivity.
  - reflexivity.
Defined.
